(** * job-scrape: a shallow embedding of [models.py], [jobscrape.py] and
    [lambda_function.py], and the properties of the scrape / diff / notify
    pipeline.

    Modelling conventions.
    - Python [str] values are [string]s holding their UTF-8 bytes: [in]
      (substring), equality with the empty string and the order used by
      [sorted] (by code point, [String.le] on the bytes) are the same on
      both.  [str.lower] follows the Unicode tables and is a parameter
      ([Str.Lowering]): every result holds for whatever function it is.
    - [JobPosting.title] and [JobPosting.id] are [str] as annotated in
      [models.py]; [link], which the code tests for truthiness, is optional.
    - Code that can raise runs in the state-and-exception monad [Run]; the
      state reached when an exception is raised is kept, since the effects
      performed before the raise stay performed.
    - Selenium's driver is an interface ([WebDriver]); the scrapers in
      [Company.jobs_page_class] are arbitrary driver programs.
    - The [config] module (companies, search terms) is a parameter of a run;
      one run is modelled, so the append of the additional term to
      [config.search_terms] is a local list.
    - S3 is a store of objects by bucket and key: reading a missing object
      raises, writing always succeeds; SNS is the list of published
      notifications.
    - [time.sleep] and [print] have no counterpart. *)

From Stdlib Require Import Ascii String List Bool Arith Lia ZArith.
From stdpp Require Import base option list gmap sets strings sorting.

(** ** Strings *)

Module Str.

Definition is_upper (c : ascii) : bool :=
  (65 <=? nat_of_ascii c) && (nat_of_ascii c <=? 90).

Definition lower_char (c : ascii) : ascii :=
  if is_upper c then ascii_of_nat (nat_of_ascii c + 32) else c.

(** What [s.lower()] is on ASCII text: the letters A..Z are folded. *)
Fixpoint ascii_lower (s : string) : string :=
  match s with
  | EmptyString => EmptyString
  | String c s' => String (lower_char c) (ascii_lower s')
  end.

(** [s.lower()], Python's own: a function on strings of which only this is
    used, that it maps the empty string, and no other, to the empty
    string (every character has a lower-case form of at least one
    character). *)
Class Lowering := {
  lower : string → string;
  lower_empty : ∀ s, lower s = EmptyString ↔ s = EmptyString
}.

(** [needle in hay] on strings: substring search. *)
Fixpoint contains (needle hay : string) : bool :=
  String.prefix needle hay
  || match hay with
     | EmptyString => false
     | String _ hay' => contains needle hay'
     end.

(** [s.replace(a, b)] for one-character [a] and [b]. *)
Fixpoint replace_char (a b : ascii) (s : string) : string :=
  match s with
  | EmptyString => EmptyString
  | String c s' =>
      String (if Ascii.eqb c a then b else c) (replace_char a b s')
  end.

(** [sep.join(parts)] *)
Fixpoint join (sep : string) (parts : list string) : string :=
  match parts with
  | [] => ""
  | [p] => p
  | p :: rest => p +:+ sep +:+ join sep rest
  end.

(** Truthiness of an optional string: [None] and [""] are falsy. *)
Definition truthy (o : option string) : option string :=
  match o with
  | Some s => if decide (s = "") then None else Some s
  | None => None
  end.

(** Specification side: [term] occurs in [text] ignoring case, that is,
    once both are put in lower case by [str.lower], the first is a slice
    of the second. *)
Definition occurs_ci `{Lowering} (term text : string) : Prop :=
  ∃ pre post, lower text = pre +:+ lower term +:+ post.

Definition nl : string := String (ascii_of_nat 10) EmptyString.
Definition tab : string := String (ascii_of_nat 9) EmptyString.

End Str.

(** ** models.py *)

Module JobPosting.
Record t := mk {
  title : string;
  link : option string;
  id : string
}.
End JobPosting.

Inductive JobsPageStatus :=
| SPECIFIC_NO_JOBS_PHRASE_FOUND
| GENERIC_NO_JOBS_PHRASE_FOUND
| NO_JOBS_PHRASE_NOT_FOUND_BUT_NO_JOBS
| SOME_JOB_FOUND.

Global Instance JobsPageStatus_eq_dec : EqDecision JobsPageStatus.
Proof. solve_decision. Defined.

(** A raised Python exception: its class and [str(e)]. *)
Inductive Exception := PyExc (cls msg : string).

Definition str_of_exception (e : Exception) : string :=
  match e with PyExc _ msg => msg end.

(** ** Programs that read and change a state and may raise *)

Definition Run (S A : Type) : Type := S → (Exception + A) * S.

Global Instance run_ret {S} : MRet (Run S) := λ A a s, (inr a, s).

Global Instance run_bind {S} : MBind (Run S) := λ A B f m s,
  match m s with
  | (inr a, s') => f a s'
  | (inl e, s') => (inl e, s')
  end.

Definition raise {S A} (e : Exception) : Run S A := λ s, (inl e, s).

(** [try: m  except Exception as e: ...] hands the outcome to the handler. *)
Definition try_except {S A} (m : Run S A) : Run S (Exception + A) :=
  λ s, let (r, s') := m s in (inr r, s').

(** The part of Selenium's driver that [jobscrape.py] calls. *)
Class WebDriver (D : Type) := {
  driver_get : string → Run D unit;
  driver_execute_script : string → Run D unit;
  (** [driver.find_element(By.TAG_NAME, 'body').text] *)
  driver_body_text : Run D string;
  driver_close : Run D unit
}.

Module Company.
(** The fields of the dataclass that the scraping code reads; the
    descriptive ones (location, notes, tags, ...) are left out. *)
Record t (D : Type) := mk {
  name : string;
  active : bool;
  jobs_page : option string;
  (** [jobs_page_class.get_jobs(driver)] *)
  jobs_page_class : option (Run D (list JobPosting.t));
  load_sleep : nat;
  scroll_sleep : nat;
  no_jobs_phrase : option string;
  relevant_search_terms : option (list string)
}.
Global Arguments mk {D}.
Global Arguments name {D}.
Global Arguments active {D}.
Global Arguments jobs_page {D}.
Global Arguments jobs_page_class {D}.
Global Arguments load_sleep {D}.
Global Arguments scroll_sleep {D}.
Global Arguments no_jobs_phrase {D}.
Global Arguments relevant_search_terms {D}.
End Company.

(** The [config] module that the dynamic import resolves to. *)
Record Config (D : Type) := mkConfig {
  companies : list (Company.t D);
  search_terms : list string
}.
Global Arguments mkConfig {D}.
Global Arguments companies {D}.
Global Arguments search_terms {D}.

(** ** jobscrape.py *)

Definition generic_no_jobs_phrases : list string :=
  ["No available positions"; "No positions"; "Sorry"; "No job"; "No current";
   "No open"; "None available"; "Don't have"; "don't currently";
   "No openings"].

Section jobscrape.
Context {D : Type} `{WebDriver D} `{Str.Lowering}.

Definition has_jobs (company : Company.t D) : Run D (bool * JobsPageStatus) :=
  text ← driver_body_text;
  let all_text_lower := Str.lower text in
  if decide (all_text_lower = "") then
    raise (PyExc "Exception" (Company.name company +:+ ": Error retrieving text"))
  else
    match Str.truthy (Company.no_jobs_phrase company) with
    | Some phrase =>
        if Str.contains (Str.lower phrase) all_text_lower
        then mret (false, SPECIFIC_NO_JOBS_PHRASE_FOUND)
        else mret (true, NO_JOBS_PHRASE_NOT_FOUND_BUT_NO_JOBS)
    | None =>
        let has_jobs :=
          forallb (λ phrase, negb (Str.contains (Str.lower phrase) all_text_lower))
                  generic_no_jobs_phrases in
        mret (has_jobs,
              if has_jobs then NO_JOBS_PHRASE_NOT_FOUND_BUT_NO_JOBS
              else GENERIC_NO_JOBS_PHRASE_FOUND)
    end.

Definition title_is_relevant (company : Company.t D) (title : string)
    (search_terms : list string) : bool :=
  match Company.relevant_search_terms company with
  | Some ((_ :: _) as terms) =>
      existsb (λ search_term, Str.contains (Str.lower search_term) (Str.lower title)) terms
  | _ =>
      existsb (λ search_term, Str.contains (Str.lower search_term) (Str.lower title)) search_terms
  end.

Definition get_company_relevant_jobs (company : Company.t D)
    (search_terms : list string) : Run D (list JobPosting.t * JobsPageStatus) :=
  match Company.jobs_page company with
  | Some url => driver_get url
  | None =>
      (* [driver.get(None)]; not reached from [get_relevant_jobs], which
         asserts the page first *)
      raise (PyExc "InvalidArgumentException" "invalid argument")
  end;;
  driver_execute_script "window.scrollTo(0, document.body.scrollHeight);";;
  '(company_has_jobs, jobs_page_status) ← has_jobs company;
  if company_has_jobs : bool then
    match Company.jobs_page_class company with
    | Some get_jobs =>
        jobs ← get_jobs;
        let jobs_page_status :=
          match jobs with [] => jobs_page_status | _ :: _ => SOME_JOB_FOUND end in
        let relevant_jobs :=
          List.filter (λ job, title_is_relevant company (JobPosting.title job) search_terms)
                      jobs in
        mret (relevant_jobs, jobs_page_status)
    | None => raise (PyExc "Exception" "Scrape not implemented")
    end
  else mret ([], jobs_page_status).

(** The four lists that [get_relevant_jobs] fills. *)
Record Scraped := mkScraped {
  relevant_jobs : list (Company.t D * JobPosting.t);
  skipped_companies : list string;
  verify_no_jobs : list (Company.t D);
  errors : list (string * Exception)
}.

Definition no_scraped : Scraped := mkScraped [] [] [] [].

(** Concatenation of the four lists, component by component. *)
Definition scraped_app (a b : Scraped) : Scraped :=
  mkScraped (relevant_jobs a ++ relevant_jobs b)
            (skipped_companies a ++ skipped_companies b)
            (verify_no_jobs a ++ verify_no_jobs b)
            (errors a ++ errors b).

(** [limit_company and limit_company.lower() not in company.name.lower()] *)
Definition limited_out (limit_company : option string) (company : Company.t D) : bool :=
  match Str.truthy limit_company with
  | Some l => negb (Str.contains (Str.lower l) (Str.lower (Company.name company)))
  | None => false
  end.

(** The body of the [try] for one company, after the call returned or
    raised. *)
Definition record_outcome (company : Company.t D)
    (outcome : Exception + (list JobPosting.t * JobsPageStatus)) (acc : Scraped) : Scraped :=
  match outcome with
  | inr (company_relevant_jobs, jobs_page_status) =>
      match company_relevant_jobs with
      | _ :: _ =>
          mkScraped (relevant_jobs acc ++ List.map (λ job, (company, job)) company_relevant_jobs)
                    (skipped_companies acc) (verify_no_jobs acc) (errors acc)
      | [] =>
          if bool_decide (jobs_page_status = GENERIC_NO_JOBS_PHRASE_FOUND
                          ∨ jobs_page_status = NO_JOBS_PHRASE_NOT_FOUND_BUT_NO_JOBS)
          then mkScraped (relevant_jobs acc) (skipped_companies acc)
                         (verify_no_jobs acc ++ [company]) (errors acc)
          else acc
      end
  | inl e =>
      mkScraped (relevant_jobs acc) (skipped_companies acc) (verify_no_jobs acc)
                (errors acc ++ [(Company.name company, e)])
  end.

(** [for company in companies: ...] of [get_relevant_jobs]. *)
Fixpoint scrape_companies (limit_company : option string) (search_terms : list string)
    (companies : list (Company.t D)) (acc : Scraped) : Run D Scraped :=
  match companies with
  | [] => mret acc
  | company :: rest =>
      if limited_out limit_company company then
        scrape_companies limit_company search_terms rest acc
      else if Company.active company then
        match Str.truthy (Company.jobs_page company) with
        | None => raise (PyExc "AssertionError" "")
        | Some _ =>
            outcome ← try_except (get_company_relevant_jobs company search_terms);
            scrape_companies limit_company search_terms rest
                             (record_outcome company outcome acc)
        end
      else
        scrape_companies limit_company search_terms rest
          (mkScraped (relevant_jobs acc)
                     (skipped_companies acc ++ [Company.name company])
                     (verify_no_jobs acc) (errors acc))
  end.

(** [config.search_terms], with the additional term appended when given. *)
Definition all_search_terms (config : Config D) (additional_search_term : option string)
    : list string :=
  match Str.truthy additional_search_term with
  | Some term => search_terms config ++ [term]
  | None => search_terms config
  end.

Definition get_relevant_jobs (config : Config D) (limit_company : option string)
    (additional_search_term : option string) : Run D Scraped :=
  let search_terms := all_search_terms config additional_search_term in
  scraped ← scrape_companies limit_company search_terms (companies config) no_scraped;
  driver_close;;
  mret scraped.

(** [new_relevant_jobs]: a dict from company name to
    [{"company": ..., "jobs": [...]}], kept in insertion order. *)
Record NewJobsInfo := mkInfo {
  info_company : Company.t D;
  info_jobs : list JobPosting.t
}.

Fixpoint new_jobs_lookup (company_name : string) (new_jobs : list (string * NewJobsInfo))
    : option NewJobsInfo :=
  match new_jobs with
  | [] => None
  | (key, info) :: rest =>
      if decide (key = company_name) then Some info
      else new_jobs_lookup company_name rest
  end.

(** Lines 29-35: append to the company's entry, or create it. *)
Fixpoint new_jobs_add (company : Company.t D) (job : JobPosting.t)
    (new_jobs : list (string * NewJobsInfo)) : list (string * NewJobsInfo) :=
  match new_jobs with
  | [] => [(Company.name company, mkInfo company [job])]
  | (key, info) :: rest =>
      if decide (key = Company.name company)
      then (key, mkInfo (info_company info) (info_jobs info ++ [job])) :: rest
      else (key, info) :: new_jobs_add company job rest
  end.

(** The jobs reported under a company name ([[]] when the key is absent). *)
Definition reported_jobs (company_name : string) (new_jobs : list (string * NewJobsInfo))
    : list JobPosting.t :=
  from_option info_jobs [] (new_jobs_lookup company_name new_jobs).

(** One round of the grouping loop.  Indexing the [defaultdict(set)]
    creates the key when it is missing. *)
Definition group_job (state : list (string * NewJobsInfo) * gmap string (gset string))
    (entry : Company.t D * JobPosting.t)
    : list (string * NewJobsInfo) * gmap string (gset string) :=
  let '(new_relevant_jobs, existing_relevant_jobs) := state in
  let '(company, job) := entry in
  let seen := default ∅ (existing_relevant_jobs !! Company.name company) in
  if decide (JobPosting.id job ∈ seen) then
    (new_relevant_jobs, <[Company.name company := seen]> existing_relevant_jobs)
  else
    (new_jobs_add company job new_relevant_jobs,
     <[Company.name company := seen ∪ {[JobPosting.id job]}]> existing_relevant_jobs).

(** [sorted(list(value))] *)
Definition sorted_ids (value : gset string) : list string :=
  merge_sort String.le (elements value).

Definition get_new_relevant_jobs (config : Config D)
    (existing_relevant_jobs : gmap string (list string))
    (limit_company additional_search_term : option string)
    : Run D (list (string * NewJobsInfo) * gmap string (list string)
             * list (Company.t D) * list (string * Exception)) :=
  let existing_relevant_jobs : gmap string (gset string) :=
    list_to_set <$> existing_relevant_jobs in
  scraped ← get_relevant_jobs config limit_company additional_search_term;
  let '(new_relevant_jobs, existing_relevant_jobs) :=
    foldl group_job ([], existing_relevant_jobs) (relevant_jobs scraped) in
  let existing_relevant_jobs := sorted_ids <$> existing_relevant_jobs in
  mret (new_relevant_jobs, existing_relevant_jobs, verify_no_jobs scraped, errors scraped).

Definition format_new_jobs_message (new_jobs : list (string * NewJobsInfo)) : string :=
  foldl (λ message '(company_name, info),
           foldl (λ message job,
                    message +:+ Str.tab +:+ " "
                      +:+ Str.replace_char (ascii_of_nat 10) " "%char (JobPosting.title job)
                      +:+ " " +:+ default "" (Str.truthy (JobPosting.link job)) +:+ Str.nl)
                 (message +:+ Str.nl +:+ company_name +:+ " ("
                    +:+ default "None" (Company.jobs_page (info_company info))
                    +:+ "):" +:+ Str.nl)
                 (info_jobs info))
        "" new_jobs.

End jobscrape.

Global Arguments Scraped D : clear implicits.
Global Arguments NewJobsInfo D : clear implicits.

(** ** lambda_function.py *)

Record AwsConfig := mkAwsConfig {
  bucket_name : string;
  config_file : string;
  scrapers_file : string;
  existing_jobs_json : string;
  errors_json : string;
  sns_topic_arn : string
}.

(** The Lambda event; an absent optional key is [None] (or [false]). *)
Record Event := mkEvent {
  ev_limit_company : option string;
  ev_temp_term : option string;
  ev_dont_replace_existing : bool;
  ev_dont_write_existing : bool;
  aws_config : AwsConfig
}.

(** One element of the errors document. *)
Record ErrorRecord := mkErrorRecord {
  company_name : string;
  message : string
}.

(** What an S3 object holds.  The JSON documents are kept decoded, with the
    shape the handler writes them in; a JSON object is a finite map, so the
    order of its keys is not recorded. *)
Inductive S3Body :=
| SourceFile (text : string)
| JobsDoc (seen : gmap string (list string))
| ErrorsDoc (records : list ErrorRecord).

(** An [sns.publish] call. *)
Record Publication := mkPublication {
  TopicArn : string;
  Message : string;
  Subject : string
}.

(** The services the handler talks to: the Chrome session, the objects of
    S3 by bucket and key, the notifications published so far, and
    [str(datetime.datetime.now())]. *)
Record World (D : Type) := mkWorld {
  chrome : D;
  s3 : gmap (string * string) S3Body;
  sns : list Publication;
  clock : string
}.
Global Arguments mkWorld {D}.
Global Arguments chrome {D}.
Global Arguments s3 {D}.
Global Arguments sns {D}.
Global Arguments clock {D}.

(** The body of the handler's response. *)
Record ReturnMessage := mkReturnMessage {
  rm_new_jobs : option string;
  rm_errors : option string
}.

Record Response := mkResponse {
  statusCode : Z;
  body : ReturnMessage
}.

Section lambda_function.
Context {D : Type} `{WebDriver D} `{Str.Lowering}.
(** [os.path.splitext] *)
Variable splitext : string → string * string.

(** [s3.Object(bucket, key).get()['Body'].read().decode('utf-8')] *)
Definition s3_get (bucket key : string) : Run (World D) S3Body :=
  λ w, match s3 w !! (bucket, key) with
       | Some content => (inr content, w)
       | None => (inl (PyExc "NoSuchKey" "The specified key does not exist."), w)
       end.

(** [s3.Object(bucket, key).put(Body=...)] *)
Definition s3_put (bucket key : string) (content : S3Body) : Run (World D) unit :=
  λ w, (inr (), mkWorld (chrome w) (<[(bucket, key) := content]> (s3 w)) (sns w) (clock w)).

(** [bucket.download_file(key, path)] *)
Definition download_file (bucket key : string) : Run (World D) unit :=
  s3_get bucket key;; mret ().

Definition sns_publish (topic message subject : string) : Run (World D) unit :=
  λ w, (inr (), mkWorld (chrome w) (s3 w) (sns w ++ [mkPublication topic message subject])
                        (clock w)).

(** [json.loads] of the existing-jobs document. *)
Definition loads_jobs (content : S3Body) : Run (World D) (gmap string (list string)) :=
  match content with
  | JobsDoc seen => mret seen
  | SourceFile _ => raise (PyExc "JSONDecodeError" "Expecting value")
  | ErrorsDoc _ => raise (PyExc "AttributeError" "'list' object has no attribute 'items'")
  end.

(** [json.loads] of the errors document, and the reading of the company
    names off it.  A JSON object is iterated by its keys: the empty one
    holds no error, any other fails at [error["company_name"]]. *)
Definition loads_errors (content : S3Body) : Run (World D) (list ErrorRecord) :=
  match content with
  | ErrorsDoc records => mret records
  | SourceFile _ => raise (PyExc "JSONDecodeError" "Expecting value")
  | JobsDoc seen =>
      if decide (seen = ∅) then mret []
      else raise (PyExc "TypeError" "string indices must be integers")
  end.

(** Runs a driver program on the handler's Chrome session. *)
Definition on_driver {A} (m : Run D A) : Run (World D) A :=
  λ w, let (r, d) := m (chrome w) in (r, mkWorld d (s3 w) (sns w) (clock w)).

(** Lines 11-61: fetch the configuration and the seen IDs, then scrape. *)
Definition handler_scrape (config : Config D) (event : Event)
    : Run (World D) (list (string * NewJobsInfo D) * gmap string (list string)
                     * list (Company.t D) * list (string * Exception)) :=
  let limit_company := ev_limit_company event in
  let temp_term := ev_temp_term event in
  let bucket := bucket_name (aws_config event) in
  download_file bucket (config_file (aws_config event));;
  download_file bucket (scrapers_file (aws_config event));;
  file_content ← s3_get bucket (existing_jobs_json (aws_config event));
  existing_relevant_jobs ← loads_jobs file_content;
  on_driver (get_new_relevant_jobs config existing_relevant_jobs limit_company temp_term).

(** The key [existing_jobs_object] points at when the seen IDs are written. *)
Definition existing_jobs_key (event : Event) (clock : string) : string :=
  if ev_dont_replace_existing event then
    let '(path, extension) := splitext (existing_jobs_json (aws_config event)) in
    path +:+ "_" +:+ Str.replace_char " "%char "_"%char clock +:+ extension
  else existing_jobs_json (aws_config event).

(** Lines 66-82. *)
Definition notify_new_jobs (event : Event) (new_relevant_jobs : list (string * NewJobsInfo D))
    (existing_relevant_jobs : gmap string (list string)) : Run (World D) ReturnMessage :=
  match new_relevant_jobs with
  | _ :: _ =>
      let new_jobs_message := format_new_jobs_message new_relevant_jobs in
      (if ev_dont_write_existing event then mret ()
       else λ w, s3_put (bucket_name (aws_config event))
                        (existing_jobs_key event (clock w))
                        (JobsDoc existing_relevant_jobs) w);;
      sns_publish (sns_topic_arn (aws_config event)) new_jobs_message "New jobs";;
      mret (mkReturnMessage (Some new_jobs_message) None)
  | [] => mret (mkReturnMessage None None)
  end.

Definition error_record (entry : string * Exception) : ErrorRecord :=
  mkErrorRecord entry.1 (str_of_exception entry.2).

Definition errors_message (errors : list (string * Exception)) : string :=
  "All errors:" +:+ Str.nl
    +:+ Str.join Str.nl
          (List.map (λ entry, entry.1 +:+ ": " +:+ str_of_exception entry.2) errors).

(** Lines 84-117. *)
Definition track_errors (event : Event) (errors : list (string * Exception))
    (return_message : ReturnMessage) : Run (World D) ReturnMessage :=
  let bucket := bucket_name (aws_config event) in
  file_content ← s3_get bucket (errors_json (aws_config event));
  existing_errors ← loads_errors file_content;
  let existing_errors_company_names : gset string :=
    list_to_set (company_name <$> existing_errors) in
  match errors with
  | _ :: _ =>
      let new_existing_errors := error_record <$> errors in
      let has_new_errors :=
        existsb (λ entry, bool_decide (entry.1 ∉ existing_errors_company_names)) errors in
      let errors_message := errors_message errors in
      (if has_new_errors
       then sns_publish (sns_topic_arn (aws_config event)) errors_message "New scrape errors"
       else mret ());;
      s3_put bucket (errors_json (aws_config event)) (ErrorsDoc new_existing_errors);;
      mret (mkReturnMessage (rm_new_jobs return_message) (Some errors_message))
  | [] =>
      if decide (existing_errors_company_names = ∅) then mret return_message
      else
        s3_put bucket (errors_json (aws_config event)) (ErrorsDoc []);;
        mret return_message
  end.

(** [local] only selects how Chrome is started. *)
Definition lambda_handler (config : Config D) (event : Event) (local : bool)
    : Run (World D) Response :=
  '(new_relevant_jobs, existing_relevant_jobs, verify_no_jobs, errors) ←
    handler_scrape config event;
  return_message ← notify_new_jobs event new_relevant_jobs existing_relevant_jobs;
  return_message ← track_errors event errors return_message;
  mret (mkResponse 200 return_message).

(** A notification with the given subject was published between two
    states of the world. *)
Definition published (subject : string) (before after : World D) : Prop :=
  ∃ fresh p, sns after = sns before ++ fresh ∧ p ∈ fresh ∧ Subject p = subject.

End lambda_function.

(** ** The command line of jobscrape.py *)

(** The parsed arguments. *)
Record Args := mkArgs {
  args_existing_jobs_json : string;
  args_additional_search_term : option string;
  args_limit_company : option string;
  args_dont_replace_existing : bool;
  args_dont_write_existing : bool;
  args_headless : bool
}.

(** The machine the script runs on: the Chrome session that
    [webdriver.Chrome] starts, the files by path (JSON files hold the same
    documents as the objects of the bucket) and
    [str(datetime.datetime.now())]. *)
Record Machine (D : Type) := mkMachine {
  m_chrome : D;
  m_files : gmap string S3Body;
  m_clock : string
}.
Global Arguments mkMachine {D}.
Global Arguments m_chrome {D}.
Global Arguments m_files {D}.
Global Arguments m_clock {D}.

Section command_line.
Context {D : Type} `{WebDriver D} `{Str.Lowering}.
(** [os.path.splitext] *)
Variable splitext : string → string * string.

(** [with open(path) as f: json.load(f)], read as the map of seen IDs. *)
Definition load_existing_jobs (path : string) : Run (Machine D) (gmap string (list string)) :=
  λ m, match m_files m !! path with
       | Some (JobsDoc seen) => (inr seen, m)
       | Some (SourceFile _) => (inl (PyExc "JSONDecodeError" "Expecting value"), m)
       | Some (ErrorsDoc _) =>
           (inl (PyExc "AttributeError" "'list' object has no attribute 'items'"), m)
       | None => (inl (PyExc "FileNotFoundError" "No such file or directory"), m)
       end.

(** [with open(filename, 'w') as f: json.dump(..., f, indent=4)] *)
Definition dump_existing_jobs (filename : string) (seen : gmap string (list string))
    : Run (Machine D) unit :=
  λ m, (inr (), mkMachine (m_chrome m) (<[filename := JobsDoc seen]> (m_files m)) (m_clock m)).

(** Runs a driver program on the script's Chrome session. *)
Definition on_chrome {A} (program : Run D A) : Run (Machine D) A :=
  λ m, let (r, d) := program (m_chrome m) in (r, mkMachine d (m_files m) (m_clock m)).

(** The file that lines 163-166 write to. *)
Definition output_filename (args : Args) (clock : string) : string :=
  if args_dont_replace_existing args then
    let '(path, extension) := splitext (args_existing_jobs_json args) in
    path +:+ "_" +:+ Str.replace_char " "%char "_"%char clock +:+ extension
  else args_existing_jobs_json args.

(** Lines 137-169, without what they print. *)
Definition jobscrape_main (config : Config D) (args : Args) : Run (Machine D) unit :=
  existing_relevant_jobs ← load_existing_jobs (args_existing_jobs_json args);
  '(new_relevant_jobs, existing_relevant_jobs, verify_no_jobs, errors) ←
    on_chrome (get_new_relevant_jobs config existing_relevant_jobs
                                     (args_limit_company args)
                                     (args_additional_search_term args));
  match new_relevant_jobs with
  | _ :: _ =>
      if args_dont_write_existing args then mret ()
      else λ m, dump_existing_jobs (output_filename args (m_clock m))
                                   existing_relevant_jobs m
  | [] => mret ()
  end.

End command_line.

(** ** A driver over a fixed table of pages, for running the code *)

Module StubDriver.

Record t := mk {
  pages : list (string * string);   (* url, text of the page body *)
  current : option string;
  closed : bool
}.

Fixpoint page_text (url : string) (table : list (string * string)) : option string :=
  match table with
  | [] => None
  | (u, text) :: rest => if decide (u = url) then Some text else page_text url rest
  end.

Global Instance web_driver : WebDriver t := {|
  driver_get url := λ d,
    match page_text url (pages d) with
    | Some text => (inr (), mk (pages d) (Some text) (closed d))
    | None => (inl (PyExc "WebDriverException" "net::ERR_NAME_NOT_RESOLVED"), d)
    end;
  driver_execute_script _ := λ d, (inr (), d);
  driver_body_text := λ d,
    match current d with
    | Some text => (inr text, d)
    | None => (inl (PyExc "NoSuchElementException" "no such element"), d)
    end;
  driver_close := λ d, (inr (), mk (pages d) (current d) true)
|}.

(** A scraper that reports a fixed list of postings. *)
Definition fixed_jobs (jobs : list JobPosting.t) : Run t (list JobPosting.t) :=
  λ d, (inr jobs, d).

Definition splitext (p : string) : string * string := (p, "").

End StubDriver.

(** ** Specification-side notions *)


(** The company's own no-jobs phrase, or else one of the generic ones,
    occurs in the text of the page. *)
Definition no_jobs_phrase_occurs {D} `{Str.Lowering} (company : Company.t D) (text : string)
    : Prop :=
  match Str.truthy (Company.no_jobs_phrase company) with
  | Some phrase => Str.occurs_ci phrase text
  | None => ∃ phrase, phrase ∈ generic_no_jobs_phrases ∧ Str.occurs_ci phrase text
  end.

(** The IDs seen before the run for a company; a company that is not a key
    of the map has none. *)
Definition seen_ids (existing_relevant_jobs : gmap string (list string))
    (company_name : string) : gset string :=
  list_to_set (default [] (existing_relevant_jobs !! company_name)).

(** The postings of a scrape that are new for a company, given the IDs
    seen so far: each one adds its ID to the seen ones. *)
Fixpoint fresh_jobs {D} (company_name : string) (seen : gset string)
    (scraped : list (Company.t D * JobPosting.t)) : list JobPosting.t :=
  match scraped with
  | [] => []
  | (company, job) :: rest =>
      if decide (Company.name company = company_name) then
        if decide (JobPosting.id job ∈ seen) then fresh_jobs company_name seen rest
        else job :: fresh_jobs company_name (seen ∪ {[JobPosting.id job]}) rest
      else fresh_jobs company_name seen rest
  end.

(** The first posting of a scrape with the given company name and ID. *)
Definition first_scraped {D} (company_name job_id : string)
    (scraped : list (Company.t D * JobPosting.t)) : option JobPosting.t :=
  snd <$> List.find (λ entry, bool_decide (Company.name entry.1 = company_name
                                            ∧ JobPosting.id entry.2 = job_id))
                    scraped.

(** Position [i] of a scrape holds [job] for the company name, and no
    earlier position holds a posting of that company with the same ID. *)
Definition first_occurrence {D} (company_name : string) (job : JobPosting.t)
    (scraped : list (Company.t D * JobPosting.t)) (i : nat) : Prop :=
  (∃ company, scraped !! i = Some (company, job) ∧ Company.name company = company_name)
  ∧ ∀ k company' job',
      k < i → scraped !! k = Some (company', job') →
      Company.name company' = company_name → JobPosting.id job' ≠ JobPosting.id job.

(** The IDs that a scrape holds for a company name. *)
Definition scraped_ids {D} (company_name : string)
    (scraped : list (Company.t D * JobPosting.t)) : gset string :=
  list_to_set ((λ entry, JobPosting.id entry.2)
                 <$> filter (λ entry, Company.name entry.1 = company_name) scraped).

(** A company that the loop of [get_relevant_jobs] scrapes: it passes the
    [limit_company] filter, is active and has a jobs page. *)
Definition scrapable {D} `{Str.Lowering} (limit_company : option string)
    (company : Company.t D) : Prop :=
  limited_out limit_company company = false
  ∧ Company.active company = true
  ∧ is_Some (Str.truthy (Company.jobs_page company)).

(** What one company of the list may add to the result of the loop: jobs
    with a relevant title, itself for verification, or an error under its
    name, all three only when it is scraped; its name as skipped only when
    it passes the limit and is inactive. *)
Definition contribution_of {D} `{Str.Lowering} (limit_company : option string)
    (terms : list string)
    (company : Company.t D) (part : Scraped D) : Prop :=
  (∀ company' job,
      (company', job) ∈ relevant_jobs part →
      company' = company ∧ scrapable limit_company company
      ∧ title_is_relevant company (JobPosting.title job) terms = true)
  ∧ (∀ company', company' ∈ verify_no_jobs part →
                 company' = company ∧ scrapable limit_company company)
  ∧ (∀ company_name e,
        (company_name, e) ∈ errors part →
        company_name = Company.name company ∧ scrapable limit_company company)
  ∧ skipped_companies part
    = (if decide (limited_out limit_company company = false ∧ Company.active company = false)
       then [Company.name company] else []).

(** The line of the new-jobs message for one job. *)
Definition job_line (job : JobPosting.t) : string :=
  Str.tab +:+ " "
    +:+ Str.replace_char (ascii_of_nat 10) " "%char (JobPosting.title job)
    +:+ " " +:+ default EmptyString (Str.truthy (JobPosting.link job)) +:+ Str.nl.

(** The block of the new-jobs message for one company: a blank line, the
    name with the jobs page, and a line per job. *)
Definition company_block {D} (entry : string * NewJobsInfo D) : string :=
  (Str.nl +:+ entry.1 +:+ " ("
     +:+ default "None" (Company.jobs_page (info_company entry.2)) +:+ "):" +:+ Str.nl)
    +:+ foldr (λ job rest, job_line job +:+ rest) EmptyString (info_jobs entry.2).

(** ** Concrete companies, pages and events *)

(** On ASCII text, which is all that the fixtures below hold, [str.lower]
    is [Str.ascii_lower]. *)
Global Instance ascii_lowering : Str.Lowering.
Proof. refine {| Str.lower := Str.ascii_lower |}. by intros []. Defined.

Module Fixtures.

Definition engineer : JobPosting.t :=
  JobPosting.mk "Software Engineer" (Some "https://lab.example/jobs/1") "1".
Definition senior_engineer : JobPosting.t :=
  JobPosting.mk "Senior Software Engineer" None "1".
Definition scientist : JobPosting.t :=
  JobPosting.mk "Research Scientist" None "2".

(** A company with its own search terms. *)
Definition lab : Company.t StubDriver.t :=
  Company.mk "Lab" true (Some "https://lab.example/jobs")
             (Some (StubDriver.fixed_jobs [engineer; scientist])) 1 1
             None (Some ["scientist"]).

(** A company whose page lists the same posting ID twice. *)
Definition acme : Company.t StubDriver.t :=
  Company.mk "Acme" true (Some "https://acme.example/careers")
             (Some (StubDriver.fixed_jobs [engineer; senior_engineer])) 1 1
             (Some "There are no roles") None.

(** A company whose page cannot be loaded. *)
Definition ghost : Company.t StubDriver.t :=
  Company.mk "Ghost" true (Some "https://ghost.invalid/jobs") None 1 1 None None.

Definition web : StubDriver.t :=
  StubDriver.mk [("https://lab.example/jobs", "Open roles: Software Engineer, Research Scientist");
                 ("https://acme.example/careers", "Join us! Software Engineer")]
                None false.

Definition on_acme : StubDriver.t :=
  StubDriver.mk (StubDriver.pages web) (Some "Join us! Software Engineer") false.

Definition sorry_page : StubDriver.t :=
  StubDriver.mk (StubDriver.pages web) (Some "Sorry, we have NO OPENINGS right now") false.


(** The driver after a run that visited [acme] last. *)
Definition acme_done : StubDriver.t :=
  StubDriver.mk (StubDriver.pages web) (Some "Join us! Software Engineer") true.

(** What scraping [acme] alone yields. *)
Definition acme_scraped : Scraped StubDriver.t :=
  mkScraped [(acme, engineer); (acme, senior_engineer)] [] [] [].

(** The configuration of a run over [acme] alone. *)
Definition acme_only : Config StubDriver.t := mkConfig [acme] ["engineer"].

Definition config : Config StubDriver.t :=
  mkConfig [lab; ghost; acme] ["engineer"].

(** A company whose page says that it has no openings. *)
Definition closed_shop : Company.t StubDriver.t :=
  Company.mk "Shop" true (Some "https://shop.example/jobs")
             (Some (StubDriver.fixed_jobs [engineer])) 1 1 None None.

(** A company for which no scraper has been written. *)
Definition unscraped : Company.t StubDriver.t :=
  Company.mk "Unscraped" true (Some "https://acme.example/careers") None 1 1 None None.

Definition on_lab : StubDriver.t :=
  StubDriver.mk (StubDriver.pages web)
                (Some "Open roles: Software Engineer, Research Scientist") false.

Definition shop_web : StubDriver.t :=
  StubDriver.mk [("https://shop.example/jobs", "We have no openings at the moment")]
                None false.

Definition on_closed_shop : StubDriver.t :=
  StubDriver.mk (StubDriver.pages shop_web) (Some "We have no openings at the moment") false.

(** An active company whose jobs page was never filled in. *)
Definition pageless : Company.t StubDriver.t :=
  Company.mk "Pageless" true None None 1 1 None None.

Definition broken_config : Config StubDriver.t :=
  mkConfig [acme; pageless; lab] ["engineer"].

Definition args : Args := mkArgs "existing_jobs.json" None None false false true.

(** A machine with nothing seen yet. *)
Definition machine : Machine StubDriver.t :=
  mkMachine web (<["existing_jobs.json" := JobsDoc ∅]> ∅) "2024-05-01 09:30:00.000000".

(** A machine without the file of seen IDs. *)
Definition bare_machine : Machine StubDriver.t :=
  mkMachine web ∅ "2024-05-01 09:30:00.000000".

Definition event : Event :=
  mkEvent None None false false
          (mkAwsConfig "job-scrape" "config.py" "scrapers.py" "existing_jobs.json"
                       "errors.json" "arn:aws:sns:us-east-1:000000000000:jobs").

(** A first run: nothing seen yet, no stored errors. *)
Definition world : World StubDriver.t :=
  mkWorld web
          (<[("job-scrape", "config.py") := SourceFile "companies = []"]>
           (<[("job-scrape", "scrapers.py") := SourceFile "class Scraper: pass"]>
            (<[("job-scrape", "existing_jobs.json") := JobsDoc ∅]>
             (<[("job-scrape", "errors.json") := ErrorsDoc []]> ∅))))
          [] "2024-05-01 09:30:00.000000".

(** What the scrape stage of the handler yields in [world] for [config]:
    [lab] and [acme] have new postings, [ghost] fails. *)
Definition ghost_error : Exception :=
  PyExc "WebDriverException" "net::ERR_NAME_NOT_RESOLVED".

Definition world_new_jobs : list (string * NewJobsInfo StubDriver.t) :=
  [("Lab", mkInfo lab [scientist]); ("Acme", mkInfo acme [engineer])].

Definition world_seen : gmap string (list string) :=
  <["Lab" := ["2"]]> (<["Acme" := ["1"]]> ∅).

Definition world_scraped : World StubDriver.t :=
  mkWorld acme_done (s3 world) (sns world) (clock world).

(** The world that the first run of the handler leaves. *)
Definition world_after : World StubDriver.t :=
  mkWorld acme_done
          (<[("job-scrape", "existing_jobs.json") := JobsDoc world_seen]>
           (<[("job-scrape", "errors.json")
              := ErrorsDoc [mkErrorRecord "Ghost" "net::ERR_NAME_NOT_RESOLVED"]]>
            (s3 world)))
          [mkPublication (sns_topic_arn (aws_config event))
                         (format_new_jobs_message world_new_jobs) "New jobs";
           mkPublication (sns_topic_arn (aws_config event))
                         (errors_message [("Ghost", ghost_error)]) "New scrape errors"]
          (clock world).

Definition world_response : Response :=
  mkResponse 200 (mkReturnMessage (Some (format_new_jobs_message world_new_jobs))
                                  (Some (errors_message [("Ghost", ghost_error)]))).

(** The same world an hour later, with a new browser. *)
Definition world_again : World StubDriver.t :=
  mkWorld web (s3 world_after) (sns world_after) "2024-05-01 10:30:00.000000".

Definition world_again_scraped : World StubDriver.t :=
  mkWorld acme_done (s3 world_after) (sns world_after) "2024-05-01 10:30:00.000000".

(** The event of a run that keeps the object of the seen IDs and writes a
    dated copy. *)
Definition snapshot_event : Event :=
  mkEvent None None true false (aws_config event).

(** A world without the configuration file. *)
Definition unconfigured_world : World StubDriver.t :=
  mkWorld web (<[("job-scrape", "errors.json") := ErrorsDoc []]> ∅) []
          "2024-05-01 09:30:00.000000".

Definition snapshot_args : Args := mkArgs "existing_jobs.json" None None true false true.

(** The run of [config] scrapes these, then closes the browser. *)
Definition config_scraped : Scraped StubDriver.t :=
  mkScraped [(lab, scientist); (acme, engineer); (acme, senior_engineer)] [] []
            [("Ghost", ghost_error)].

End Fixtures.

(** * Properties *)

(** ** Strings *)

Lemma string_app_cons a s t : String a s +:+ t = String a (s +:+ t).
Proof. reflexivity. Qed.

Lemma string_app_nil_l s : "" +:+ s = s.
Proof. reflexivity. Qed.

Lemma string_app_assoc (a b c : string) : (a +:+ b) +:+ c = a +:+ (b +:+ c).
Proof. induction a as [|x a IH]; [done|]. rewrite !string_app_cons. by f_equal. Qed.

Lemma prefix_spec needle hay :
  String.prefix needle hay = true ↔ ∃ post, hay = needle +:+ post.
Proof.
  revert hay. induction needle as [|a needle IH]; intros hay.
  - destruct hay; simpl; split; eauto.
  - destruct hay as [|b hay]; simpl.
    + split; [done|]. intros [post Hpost]. by rewrite string_app_cons in Hpost.
    + destruct (ascii_dec a b) as [->|Hne].
      * rewrite IH. split; intros [post Hpost]; exists post.
        -- rewrite string_app_cons. by f_equal.
        -- rewrite string_app_cons in Hpost. by simplify_eq.
      * split; [done|]. intros [post Hpost].
        rewrite string_app_cons in Hpost. by simplify_eq.
Qed.

Lemma contains_spec needle hay :
  Str.contains needle hay = true ↔ ∃ pre post, hay = pre +:+ needle +:+ post.
Proof.
  induction hay as [|c hay IH]; cbn [Str.contains]; rewrite orb_true_iff, prefix_spec.
  - split.
    + intros [[post Hpost]|?]; [|done]. by exists "", post.
    + intros ([|x pre] & post & Hpost); [|by rewrite string_app_cons in Hpost].
      left. by exists post.
  - rewrite IH. split.
    + intros [[post Hpost]|(pre & post & Hpost)].
      * by exists "", post.
      * exists (String c pre), post. rewrite string_app_cons. by f_equal.
    + intros ([|x pre] & post & Hpost).
      * left. by exists post.
      * right. rewrite string_app_cons in Hpost. simplify_eq. by exists pre, post.
Qed.

(** [term.lower() in text.lower()] is containment ignoring case. *)
Lemma contains_lower_iff `{Str.Lowering} term text :
  Str.contains (Str.lower term) (Str.lower text) = true ↔ Str.occurs_ci term text.
Proof. apply contains_spec. Qed.

Lemma existsb_contains_iff `{Str.Lowering} terms text :
  existsb (λ term, Str.contains (Str.lower term) (Str.lower text)) terms = true
  ↔ ∃ term, term ∈ terms ∧ Str.occurs_ci term text.
Proof.
  rewrite existsb_exists. split.
  - intros (term & Hin & Hc). exists term.
    by rewrite list_elem_of_In, <- contains_lower_iff.
  - intros (term & Hin & Hc). exists term.
    by rewrite <- list_elem_of_In, contains_lower_iff.
Qed.

(** ** Relevance of a title *)

Section relevance.
Context {D : Type} `{WebDriver D} `{Str.Lowering}.


(** C9: for a company with a non-empty [relevant_search_terms] list the
    verdict on a title, and with it the list of relevant postings that
    [get_company_relevant_jobs] returns, is the same whatever the global
    search terms are: it is decided by the company's own terms. *)
Theorem company_terms_override (company : Company.t D) (t : string) (ts : list string) :
  Company.relevant_search_terms company = Some (t :: ts) →
  ∀ (terms1 terms2 : list string),
    (∀ title,
        title_is_relevant company title terms1 = title_is_relevant company title terms2
        ∧ (title_is_relevant company title terms1 = true
           ↔ ∃ term, term ∈ t :: ts ∧ Str.occurs_ci term title))
    ∧ (∀ d, get_company_relevant_jobs company terms1 d
            = get_company_relevant_jobs company terms2 d).
Proof.
  intros Hterms terms1 terms2.
  assert (∀ title terms,
    title_is_relevant company title terms
    = existsb (λ term, Str.contains (Str.lower term) (Str.lower title)) (t :: ts)) as Heq.
  { intros title terms. unfold title_is_relevant. by rewrite Hterms. }
  split.
  - intros title. split; [by rewrite !Heq|]. rewrite Heq. apply existsb_contains_iff.
  - intros d. unfold get_company_relevant_jobs, mbind, run_bind.
    assert (∀ jobs,
      List.filter (λ job, title_is_relevant company (JobPosting.title job) terms1) jobs
      = List.filter (λ job, title_is_relevant company (JobPosting.title job) terms2) jobs)
      as Hfilter.
    { intros jobs. apply List.filter_ext. intros job. by rewrite !Heq. }
    repeat case_match; simplify_eq; try done.
    by rewrite Hfilter.
Qed.

End relevance.


Lemma company_terms_override_witness :
  title_is_relevant Fixtures.lab "Software Engineer" ["engineer"]
  = title_is_relevant Fixtures.lab "Software Engineer" [].
Proof.
  apply (company_terms_override Fixtures.lab "scientist" [] eq_refl ["engineer"] []).
Defined.

(** ** "Has jobs" detection *)

Section detection.
Context {D : Type} `{WebDriver D} `{Str.Lowering}.

Lemma phrase_found_iff (phrases : list string) (text : string) :
  forallb (λ phrase, negb (Str.contains (Str.lower phrase) (Str.lower text))) phrases
  = false
  ↔ ∃ phrase, phrase ∈ phrases ∧ Str.occurs_ci phrase text.
Proof.
  rewrite <- existsb_contains_iff.
  induction phrases as [|p ps IH]; [by split|]. cbn [forallb existsb].
  destruct (Str.contains (Str.lower p) (Str.lower text)); simpl; [by split|apply IH].
Qed.


End detection.

(** The generic phrases apply to a company without a phrase of its own;
    a company with its own phrase is judged by that phrase alone. *)
Example has_jobs_on_sorry_page :
  has_jobs Fixtures.lab Fixtures.sorry_page
  = (inr (false, GENERIC_NO_JOBS_PHRASE_FOUND), Fixtures.sorry_page)
  ∧ has_jobs Fixtures.acme Fixtures.sorry_page
    = (inr (true, NO_JOBS_PHRASE_NOT_FOUND_BUT_NO_JOBS), Fixtures.sorry_page).
Proof. split; reflexivity. Qed.


(** ** The scraping loop *)

Section scraping.
Context {D : Type} `{WebDriver D} `{Str.Lowering}.

Lemma scraped_app_no_scraped_r (a : Scraped D) : scraped_app a no_scraped = a.
Proof. destruct a. unfold scraped_app, no_scraped. simpl. by rewrite !app_nil_r. Qed.

Lemma scraped_app_assoc (a b c : Scraped D) :
  scraped_app (scraped_app a b) c = scraped_app a (scraped_app b c).
Proof. unfold scraped_app. simpl. by rewrite !app_assoc. Qed.

(** What one company adds does not depend on what was collected before. *)
Lemma record_outcome_app (company : Company.t D) outcome (acc : Scraped D) :
  record_outcome company outcome acc
  = scraped_app acc (record_outcome company outcome no_scraped).
Proof.
  destruct acc. unfold record_outcome, scraped_app, no_scraped.
  repeat case_match; simpl; by rewrite ?app_nil_r.
Qed.

(** The loop only appends to the lists it is started with. *)
Lemma scrape_companies_acc limit terms (cs : list (Company.t D)) (acc : Scraped D) d :
  scrape_companies limit terms cs acc d
  = match scrape_companies limit terms cs no_scraped d with
    | (inr scraped, d') => (inr (scraped_app acc scraped), d')
    | (inl e, d') => (inl e, d')
    end.
Proof.
  revert acc d. induction cs as [|c cs IH]; intros acc d; cbn [scrape_companies].
  { unfold mret, run_ret. by rewrite scraped_app_no_scraped_r. }
  destruct (limited_out limit c); [apply IH|].
  destruct (Company.active c).
  - destruct (Str.truthy (Company.jobs_page c)); [|done].
    unfold mbind, run_bind, try_except.
    destruct (get_company_relevant_jobs c terms d) as [outcome d1].
    rewrite IH, (IH (record_outcome c outcome no_scraped)).
    destruct (scrape_companies limit terms cs no_scraped d1) as [[e|scraped] d2]; [done|].
    by rewrite (record_outcome_app c outcome acc), scraped_app_assoc.
  - rewrite IH, (IH (mkScraped _ _ _ _)).
    destruct (scrape_companies limit terms cs no_scraped d) as [[e|scraped] d2]; [done|].
    destruct acc. unfold scraped_app. simpl. do 2 f_equal.
    by rewrite <- !app_assoc.
Qed.

(** Looping over [pre ++ post] is looping over [pre], then over [post]. *)
Lemma scrape_companies_app limit terms (pre post : list (Company.t D)) (acc : Scraped D) d :
  scrape_companies limit terms (pre ++ post) acc d
  = match scrape_companies limit terms pre acc d with
    | (inr scraped, d') => scrape_companies limit terms post scraped d'
    | (inl e, d') => (inl e, d')
    end.
Proof.
  revert acc d. induction pre as [|c pre IH]; intros acc d; [done|].
  cbn [app scrape_companies].
  destruct (limited_out limit c); [apply IH|].
  destruct (Company.active c); [|apply IH].
  destruct (Str.truthy (Company.jobs_page c)); [|done].
  unfold mbind, run_bind, try_except.
  destruct (get_company_relevant_jobs c terms d) as [outcome d1]. apply IH.
Qed.

(** The assertion on [jobs_page] stands before the [try]: a selected,
    active company without a jobs page ends the loop with the
    [AssertionError], whatever was collected so far. *)
Lemma missing_jobs_page_raises limit terms (company : Company.t D)
    (rest : list (Company.t D)) (acc : Scraped D) d :
  limited_out limit company = false →
  Company.active company = true →
  Str.truthy (Company.jobs_page company) = None →
  scrape_companies limit terms (company :: rest) acc d
  = (inl (PyExc "AssertionError" EmptyString), d).
Proof. intros Hlimit Hactive Hpage. cbn [scrape_companies]. by rewrite Hlimit, Hactive, Hpage. Qed.

(** C5: when the scrape of one selected, active company raises [e], the
    run goes on: [get_relevant_jobs] returns, its error list holds the pair
    of the company's name and [e] between the errors of the companies before
    and after it, the companies after it are scraped as they would be on
    their own from the driver state the failure left, and the failing
    company adds nothing to the relevant jobs, to [verify_no_jobs] or to
    the skipped companies. *)
Theorem scrape_error_is_recorded (config : Config D) (limit_company additional : option string)
    (pre post : list (Company.t D)) (company : Company.t D) (e : Exception)
    (before after : Scraped D) (d d1 d2 d3 d4 : D) :
  companies config = pre ++ company :: post →
  scrape_companies limit_company (all_search_terms config additional) pre no_scraped d
    = (inr before, d1) →
  limited_out limit_company company = false →
  Company.active company = true →
  is_Some (Str.truthy (Company.jobs_page company)) →
  get_company_relevant_jobs company (all_search_terms config additional) d1 = (inl e, d2) →
  scrape_companies limit_company (all_search_terms config additional) post no_scraped d2
    = (inr after, d3) →
  driver_close d3 = (inr (), d4) →
  get_relevant_jobs config limit_company additional d
  = (inr (mkScraped (relevant_jobs before ++ relevant_jobs after)
                    (skipped_companies before ++ skipped_companies after)
                    (verify_no_jobs before ++ verify_no_jobs after)
                    (errors before ++ (Company.name company, e) :: errors after)),
     d4).
Proof.
  intros Hcs Hpre Hlimit Hactive [url Hpage] Hraise Hpost Hclose.
  unfold get_relevant_jobs. rewrite Hcs. unfold mbind at 1. unfold run_bind.
  rewrite scrape_companies_app, Hpre. cbn [scrape_companies].
  rewrite Hlimit, Hactive, Hpage. unfold mbind at 1. unfold run_bind, try_except.
  rewrite Hraise, scrape_companies_acc, Hpost.
  unfold mbind, run_bind. rewrite Hclose. unfold mret, run_ret.
  destruct before. unfold scraped_app. simpl. by rewrite <- app_assoc.
Qed.

End scraping.

Lemma scrape_error_is_recorded_witness :
  ∃ scraped d,
    get_relevant_jobs Fixtures.config None None Fixtures.web = (inr scraped, d)
    ∧ errors scraped = [("Ghost", PyExc "WebDriverException" "net::ERR_NAME_NOT_RESOLVED")].
Proof.
  eexists _, _. split.
  - eapply (scrape_error_is_recorded Fixtures.config None None
              [Fixtures.lab] [Fixtures.acme] Fixtures.ghost).
    + reflexivity.
    + reflexivity.
    + reflexivity.
    + reflexivity.
    + by eexists.
    + reflexivity.
    + reflexivity.
    + reflexivity.
  - reflexivity.
Defined.

(** ** The diff against the seen IDs *)

Section diff.
Context {D : Type} `{WebDriver D} `{Str.Lowering}.

Implicit Types (new : list (string * NewJobsInfo D)) (ex : gmap string (gset string)).
Implicit Types (scraped : list (Company.t D * JobPosting.t)).

Lemma reported_jobs_add company job new company_name :
  reported_jobs company_name (new_jobs_add company job new)
  = reported_jobs company_name new
    ++ (if decide (Company.name company = company_name) then [job] else []).
Proof.
  unfold reported_jobs. induction new as [|[key info] new IH]; simpl.
  - repeat case_decide; by simplify_eq.
  - repeat case_decide; simplify_eq; simpl; repeat case_decide; simplify_eq;
      rewrite ?app_nil_r; try done.
    all: by rewrite IH, ?app_nil_r.
Qed.

(** The grouping loop reports, for each company name, the fresh postings
    of the scrape in their order. *)
Lemma reported_jobs_foldl scraped new ex company_name :
  reported_jobs company_name (foldl group_job (new, ex) scraped).1
  = reported_jobs company_name new
    ++ fresh_jobs company_name (default ∅ (ex !! company_name)) scraped.
Proof.
  revert new ex. induction scraped as [|[company job] scraped IH]; intros new ex.
  { simpl. by rewrite app_nil_r. }
  cbn [foldl fresh_jobs]. unfold group_job at 2.
  destruct (decide (Company.name company = company_name)) as [<-|Hne].
  - destruct (decide (JobPosting.id job ∈ default ∅ (ex !! Company.name company)))
      as [Hin|Hnin].
    + by rewrite IH, lookup_insert_eq.
    + rewrite IH, lookup_insert_eq, reported_jobs_add, decide_True by done.
      by rewrite <- app_assoc.
  - destruct (decide (JobPosting.id job ∈ default ∅ (ex !! Company.name company)));
      rewrite IH, lookup_insert_ne by done; [done|].
    by rewrite reported_jobs_add, decide_False, app_nil_r.
Qed.

(** A key of the seen-IDs map stays a key, and its set only gains IDs. *)
Lemma seen_foldl_mono scraped new ex company_name (ids : gset string) :
  ex !! company_name = Some ids →
  ∃ ids', (foldl group_job (new, ex) scraped).2 !! company_name = Some ids' ∧ ids ⊆ ids'.
Proof.
  revert new ex ids. induction scraped as [|[company job] scraped IH]; intros new ex ids Hids.
  { by exists ids. }
  cbn [foldl]. unfold group_job at 2.
  destruct (decide (Company.name company = company_name)) as [Heq|Hne].
  - rewrite Heq, Hids. simpl.
    destruct (decide (JobPosting.id job ∈ ids)).
    + apply IH. by rewrite lookup_insert_eq.
    + destruct (IH (new_jobs_add company job new)
                   (<[company_name := ids ∪ {[JobPosting.id job]}]> ex)
                   (ids ∪ {[JobPosting.id job]})) as (ids' & Hids' & Hsub).
      { by rewrite lookup_insert_eq. }
      exists ids'. split; [done|set_solver].
  - destruct (decide (JobPosting.id job ∈ default ∅ (ex !! Company.name company)));
      apply IH; by rewrite lookup_insert_ne.
Qed.

Lemma fresh_jobs_not_seen company_name (seen : gset string) scraped job :
  job ∈ fresh_jobs company_name seen scraped → JobPosting.id job ∉ seen.
Proof.
  revert seen. induction scraped as [|[company job'] scraped IH]; intros seen; simpl.
  { by intros ?%elem_of_nil. }
  repeat case_decide; [by apply IH| |by apply IH].
  intros [->|Hin%IH]%elem_of_cons; [done|set_solver].
Qed.

Lemma fresh_jobs_ids_NoDup company_name (seen : gset string) scraped :
  NoDup (JobPosting.id <$> fresh_jobs company_name seen scraped).
Proof.
  revert seen. induction scraped as [|[company job] scraped IH]; intros seen; simpl.
  { constructor. }
  repeat case_decide; [apply IH| |apply IH].
  rewrite fmap_cons. constructor; [|apply IH].
  intros (job' & Hid & Hin%fresh_jobs_not_seen)%list_elem_of_fmap. set_solver.
Qed.

Lemma fresh_jobs_first_scraped company_name (seen : gset string) scraped job :
  job ∈ fresh_jobs company_name seen scraped →
  first_scraped company_name (JobPosting.id job) scraped = Some job.
Proof.
  unfold first_scraped.
  revert seen. induction scraped as [|[company job'] scraped IH]; intros seen; simpl.
  { by intros ?%elem_of_nil. }
  destruct (decide (Company.name company = company_name)) as [Hname|Hname].
  - destruct (decide (JobPosting.id job' ∈ seen)) as [Hseen|Hseen].
    + intros Hin. rewrite bool_decide_eq_false_2; [by eapply IH|].
      apply fresh_jobs_not_seen in Hin. intros [_ Hid]. congruence.
    + intros [->|Hin]%elem_of_cons.
      * by rewrite bool_decide_eq_true_2.
      * rewrite bool_decide_eq_false_2; [by eapply IH|].
        apply fresh_jobs_not_seen in Hin. intros [_ Hid]. set_solver.
  - intros Hin. rewrite bool_decide_eq_false_2; [by eapply IH|]. by intros [? _].
Qed.

Lemma first_occurrence_head company_name job company job' scraped :
  first_occurrence company_name job ((company, job') :: scraped) 0
  ↔ job' = job ∧ Company.name company = company_name.
Proof.
  unfold first_occurrence. simpl. split.
  - intros [(c & Heq & Hname) _]. by simplify_eq.
  - intros [-> Hname]. split; [by exists company|]. intros k ? ? Hk. lia.
Qed.

Lemma first_occurrence_later company_name job company job' scraped i :
  first_occurrence company_name job ((company, job') :: scraped) (S i)
  ↔ (Company.name company = company_name → JobPosting.id job' ≠ JobPosting.id job)
    ∧ first_occurrence company_name job scraped i.
Proof.
  unfold first_occurrence. simpl. split.
  - intros [Hat Hbefore]. split; [|split; [done|]].
    + intros Hname. by apply (Hbefore 0 company job'); [lia|..].
    + intros k c j Hk Hlook. apply (Hbefore (S k) c j); [lia|done].
  - intros [Hhead [Hat Hbefore]]. split; [done|].
    intros [|k] c j Hk Hlook; simpl in Hlook.
    + by simplify_eq.
    + apply (Hbefore k c j); [lia|done].
Qed.

(** The fresh postings are the first occurrences of the IDs not seen. *)
Lemma fresh_jobs_elem_of company_name (seen : gset string) scraped job :
  job ∈ fresh_jobs company_name seen scraped
  ↔ (JobPosting.id job ∉ seen) ∧ (∃ i, first_occurrence company_name job scraped i).
Proof.
  revert seen. induction scraped as [|[company job'] scraped IH]; intros seen.
  { simpl. split; [by intros ?%elem_of_nil|]. by intros [_ [i [(c & ? & _) _]]]. }
  cbn [fresh_jobs]. destruct (decide (Company.name company = company_name)) as [Hname|Hname].
  - destruct (decide (JobPosting.id job' ∈ seen)) as [Hseen|Hseen].
    + rewrite IH. split.
      * intros [Hjob [i Hi]]. split; [done|]. exists (S i).
        apply first_occurrence_later. split; [|done]. congruence.
      * intros [Hjob [[|i] Hi]].
        -- apply first_occurrence_head in Hi as [-> _]. done.
        -- apply first_occurrence_later in Hi as [_ Hi]. eauto.
    + rewrite elem_of_cons, IH. split.
      * intros [->|[Hjob [i Hi]]].
        -- split; [done|]. exists 0. by apply first_occurrence_head.
        -- split; [by intros ?; apply Hjob, elem_of_union; left|]. exists (S i).
           apply first_occurrence_later. split; [|done].
           intros _ Hid. apply Hjob, elem_of_union. right. by apply elem_of_singleton.
      * intros [Hjob [[|i] Hi]].
        -- apply first_occurrence_head in Hi as [-> _]. by left.
        -- apply first_occurrence_later in Hi as [Hhead Hi]. right.
           split; [|by eauto]. specialize (Hhead Hname).
           intros [?|?%elem_of_singleton]%elem_of_union; [done|congruence].
  - rewrite IH. split.
    + intros [Hjob [i Hi]]. split; [done|]. exists (S i).
      apply first_occurrence_later. by split.
    + intros [Hjob [[|i] Hi]].
      * by apply first_occurrence_head in Hi as [_ ?].
      * apply first_occurrence_later in Hi as [_ Hi]. eauto.
Qed.

(** [sorted(list(value))] lists the set in order, each ID once. *)
Lemma sorted_ids_spec (value : gset string) :
  StronglySorted String.le (sorted_ids value)
  ∧ NoDup (sorted_ids value)
  ∧ ∀ job_id, job_id ∈ sorted_ids value ↔ job_id ∈ value.
Proof.
  unfold sorted_ids. split; [|split].
  - apply StronglySorted_merge_sort; apply _.
  - rewrite merge_sort_Permutation. apply NoDup_elements.
  - intros job_id. by rewrite merge_sort_Permutation, elem_of_elements.
Qed.

(** [get_new_relevant_jobs] returns whenever the scrape does, with the
    outcome of the grouping loop. *)
Lemma get_new_relevant_jobs_returns (config : Config D)
    (existing : gmap string (list string)) limit additional (d d' : D) (scraped : Scraped D) :
  get_relevant_jobs config limit additional d = (inr scraped, d') →
  get_new_relevant_jobs config existing limit additional d
  = (inr ((foldl group_job ([], list_to_set <$> existing) (relevant_jobs scraped)).1,
          sorted_ids <$> (foldl group_job ([], list_to_set <$> existing)
                                (relevant_jobs scraped)).2,
          verify_no_jobs scraped, errors scraped), d').
Proof.
  intros Hscrape. unfold get_new_relevant_jobs, mbind, run_bind. rewrite Hscrape.
  by destruct (foldl group_job _ _).
Qed.

Lemma get_new_relevant_jobs_raises (config : Config D)
    (existing : gmap string (list string)) limit additional (d d' : D) (e : Exception) :
  get_relevant_jobs config limit additional d = (inl e, d') →
  get_new_relevant_jobs config existing limit additional d = (inl e, d').
Proof.
  intros Hscrape. unfold get_new_relevant_jobs, mbind, run_bind. by rewrite Hscrape.
Qed.

Lemma seen_ids_lookup (existing : gmap string (list string)) company_name :
  default ∅ ((list_to_set <$> existing : gmap string (gset string)) !! company_name)
  = seen_ids existing company_name.
Proof. unfold seen_ids. rewrite lookup_fmap. by destruct (existing !! company_name). Qed.

Lemma new_jobs_add_keys company job new :
  (new_jobs_add company job new).*1
  = if decide (Company.name company ∈ new.*1) then new.*1
    else new.*1 ++ [Company.name company].
Proof.
  induction new as [|[key info] new IH]; cbn [new_jobs_add fmap list_fmap fst].
  { case_decide as Hin; [by apply elem_of_nil in Hin|done]. }
  destruct (decide (key = Company.name company)) as [->|Hne]; cbn [fmap list_fmap fst].
  - rewrite decide_True; [done|]. by left.
  - rewrite IH. destruct (decide (Company.name company ∈ new.*1)) as [Hin|Hnin].
    + rewrite decide_True; [done|]. by right.
    + rewrite decide_False; [done|]. by intros [?|?]%elem_of_cons.
Qed.

(** Each company name is a key of [new_relevant_jobs] at most once. *)
Lemma new_jobs_keys_NoDup scraped new ex :
  NoDup new.*1 → NoDup (foldl group_job (new, ex) scraped).1.*1.
Proof.
  revert new ex. induction scraped as [|[company job] scraped IH]; intros new ex Hnew; [done|].
  cbn [foldl]. unfold group_job at 2. case_decide; apply IH; [done|].
  rewrite new_jobs_add_keys. case_decide; [done|].
  apply NoDup_app. split; [done|]. split; [|apply NoDup_singleton].
  by intros key Hkey ->%list_elem_of_singleton.
Qed.

(** C1 (amended): once the scrape has returned, [get_new_relevant_jobs]
    returns, and a job is reported under a company name exactly when its ID
    is not among the IDs seen before the run for that name (none for a
    company missing from the input map) and it is the first posting of the
    scrape with that company name and that ID. *)
Theorem new_job_reported_iff (config : Config D) (existing : gmap string (list string))
    (limit additional : option string) (d d' : D) (scraped : Scraped D) :
  get_relevant_jobs config limit additional d = (inr scraped, d') →
  ∃ new existing',
    get_new_relevant_jobs config existing limit additional d
    = (inr (new, existing', verify_no_jobs scraped, errors scraped), d')
    ∧ ∀ company_name job,
        job ∈ reported_jobs company_name new
        ↔ (JobPosting.id job ∉ seen_ids existing company_name)
          ∧ (∃ i, first_occurrence company_name job (relevant_jobs scraped) i).
Proof.
  intros Hscrape. eexists _, _. split.
  { by apply get_new_relevant_jobs_returns. }
  intros company_name job.
  rewrite reported_jobs_foldl, seen_ids_lookup. apply fresh_jobs_elem_of.
Qed.

(** C8: every company key of the input map is a key of the returned map,
    every ID listed for it in the input is listed for it in the output,
    and each list of the returned map is sorted and without duplicates. *)
Theorem seen_ids_only_grow (config : Config D) (existing : gmap string (list string))
    (limit additional : option string) (d d' : D) (scraped : Scraped D) :
  get_relevant_jobs config limit additional d = (inr scraped, d') →
  ∃ new existing',
    get_new_relevant_jobs config existing limit additional d
    = (inr (new, existing', verify_no_jobs scraped, errors scraped), d')
    ∧ (∀ company_name ids,
          existing !! company_name = Some ids →
          ∃ ids', existing' !! company_name = Some ids'
                  ∧ ∀ job_id, job_id ∈ ids → job_id ∈ ids')
    ∧ (∀ company_name ids',
          existing' !! company_name = Some ids' →
          StronglySorted String.le ids' ∧ NoDup ids').
Proof.
  intros Hscrape. eexists _, _. split; [|split].
  { by apply get_new_relevant_jobs_returns. }
  - intros company_name ids Hids.
    destruct (seen_foldl_mono (relevant_jobs scraped) [] (list_to_set <$> existing)
                company_name (list_to_set ids)) as (ids' & Hids' & Hsub).
    { by rewrite lookup_fmap, Hids. }
    exists (sorted_ids ids'). rewrite lookup_fmap, Hids'. split; [done|].
    intros job_id Hin. apply sorted_ids_spec, Hsub. by apply elem_of_list_to_set.
  - intros company_name ids'. rewrite lookup_fmap.
    destruct (_ !! company_name) as [value|]; [|done].
    intros [= <-]. split; apply sorted_ids_spec.
Qed.

(** C10: within one run every company name is a key of
    [new_relevant_jobs] at most once, the jobs reported under it carry
    pairwise different IDs, and a reported job is the first posting of the
    scrape with its company name and ID: later postings with that name and
    ID are not added. *)
Theorem job_id_reported_once (config : Config D) (existing : gmap string (list string))
    (limit additional : option string) (d d' : D) (scraped : Scraped D) :
  get_relevant_jobs config limit additional d = (inr scraped, d') →
  ∃ new existing',
    get_new_relevant_jobs config existing limit additional d
    = (inr (new, existing', verify_no_jobs scraped, errors scraped), d')
    ∧ NoDup new.*1
    ∧ ∀ company_name,
        NoDup (JobPosting.id <$> reported_jobs company_name new)
        ∧ ∀ job, job ∈ reported_jobs company_name new →
                 first_scraped company_name (JobPosting.id job) (relevant_jobs scraped)
                 = Some job.
Proof.
  intros Hscrape. eexists _, _. split; [|split].
  { by apply get_new_relevant_jobs_returns. }
  { apply new_jobs_keys_NoDup. constructor. }
  intros company_name. rewrite reported_jobs_foldl. split.
  - apply fresh_jobs_ids_NoDup.
  - apply fresh_jobs_first_scraped.
Qed.

End diff.

(** C1 as worded fails: the second posting of [acme] is scraped and
    relevant and its ID was never seen before the run, yet it is not
    reported, because the first posting of the run carries the same ID. *)
Lemma repeated_id_not_reported_counterexample :
  get_relevant_jobs Fixtures.acme_only None None Fixtures.web
  = (inr Fixtures.acme_scraped, Fixtures.acme_done)
  ∧ (Fixtures.acme, Fixtures.senior_engineer) ∈ relevant_jobs Fixtures.acme_scraped
  ∧ get_new_relevant_jobs Fixtures.acme_only ∅ None None Fixtures.web
    = (inr ([("Acme", mkInfo Fixtures.acme [Fixtures.engineer])],
            {["Acme" := ["1"]]}, [], []),
       Fixtures.acme_done)
  ∧ ¬ (Fixtures.senior_engineer
         ∈ reported_jobs "Acme" [("Acme", mkInfo Fixtures.acme [Fixtures.engineer])]
       ↔ JobPosting.id Fixtures.senior_engineer ∉ seen_ids ∅ "Acme").
Proof.
  split; [reflexivity|]. split; [by right; left|]. split; [by vm_compute|].
  intros [_ Hback].
  assert (Fixtures.senior_engineer ∈ [Fixtures.engineer]) as Hin.
  { apply Hback. unfold seen_ids. rewrite lookup_empty. simpl. apply not_elem_of_empty. }
  by apply list_elem_of_singleton in Hin.
Qed.

Lemma new_job_reported_iff_witness :
  ∃ new existing',
    get_new_relevant_jobs Fixtures.acme_only ∅ None None Fixtures.web
    = (inr (new, existing', [], []), Fixtures.acme_done).
Proof.
  assert (get_relevant_jobs Fixtures.acme_only None None Fixtures.web
          = (inr Fixtures.acme_scraped, Fixtures.acme_done)) as acme_only_scrape
    by reflexivity.
  destruct (new_job_reported_iff Fixtures.acme_only ∅ None None Fixtures.web
              Fixtures.acme_done Fixtures.acme_scraped acme_only_scrape)
    as (new & existing' & Heq & _).
  by exists new, existing'.
Defined.

Lemma seen_ids_only_grow_witness :
  ∃ new existing',
    get_new_relevant_jobs Fixtures.acme_only {["Acme" := ["7"]]} None None Fixtures.web
    = (inr (new, existing', [], []), Fixtures.acme_done)
    ∧ ∃ ids', existing' !! "Acme" = Some ids' ∧ "7" ∈ ids'.
Proof.
  assert (get_relevant_jobs Fixtures.acme_only None None Fixtures.web
          = (inr Fixtures.acme_scraped, Fixtures.acme_done)) as acme_only_scrape
    by reflexivity.
  destruct (seen_ids_only_grow Fixtures.acme_only {["Acme" := ["7"]]} None None
              Fixtures.web Fixtures.acme_done Fixtures.acme_scraped acme_only_scrape)
    as (new & existing' & Heq & Hgrow & _).
  exists new, existing'. split; [done|].
  destruct (Hgrow "Acme" ["7"] eq_refl) as (ids' & Hids' & Hsub).
  exists ids'. split; [done|]. apply Hsub. by left.
Defined.

Lemma job_id_reported_once_witness :
  ∃ new existing',
    get_new_relevant_jobs Fixtures.acme_only ∅ None None Fixtures.web
    = (inr (new, existing', [], []), Fixtures.acme_done)
    ∧ NoDup (JobPosting.id <$> reported_jobs "Acme" new).
Proof.
  assert (get_relevant_jobs Fixtures.acme_only None None Fixtures.web
          = (inr Fixtures.acme_scraped, Fixtures.acme_done)) as acme_only_scrape
    by reflexivity.
  destruct (job_id_reported_once Fixtures.acme_only ∅ None None Fixtures.web
              Fixtures.acme_done Fixtures.acme_scraped acme_only_scrape)
    as (new & existing' & Heq & _ & Honce).
  exists new, existing'. split; [done|]. apply Honce.
Defined.

(** ** The Lambda handler *)

Section handler.
Context {D : Type} `{WebDriver D} `{Str.Lowering}.
Variable splitext : string → string * string.

Implicit Types (w : World D) (event : Event) (config : Config D).

Local Ltac run_steps :=
  unfold download_file, s3_get, s3_put, sns_publish, loads_jobs, loads_errors, on_driver,
    raise, mbind, run_bind, mret, run_ret in *.

(** Scraping touches the browser only. *)
Lemma handler_scrape_frame config event w outcome w1 :
  handler_scrape config event w = (outcome, w1) →
  s3 w1 = s3 w ∧ sns w1 = sns w ∧ clock w1 = clock w.
Proof.
  unfold handler_scrape. run_steps. intros Hrun.
  repeat case_match; by simplify_eq.
Qed.

(** The notification step always returns; it publishes once when there are
    new jobs and not at all otherwise, and writes at most the seen-IDs
    object. *)
Lemma notify_new_jobs_run event (new : list (string * NewJobsInfo D))
    (existing' : gmap string (list string)) w :
  ∃ return_message w2,
    notify_new_jobs splitext event new existing' w = (inr return_message, w2)
    ∧ sns w2 = sns w ++ match new with
                        | [] => []
                        | _ :: _ => [mkPublication (sns_topic_arn (aws_config event))
                                                   (format_new_jobs_message new) "New jobs"]
                        end
    ∧ clock w2 = clock w
    ∧ ∀ key, key ≠ existing_jobs_key splitext event (clock w) →
             s3 w2 !! (bucket_name (aws_config event), key)
             = s3 w !! (bucket_name (aws_config event), key).
Proof.
  unfold notify_new_jobs. destruct new as [|entry new].
  { eexists _, _. split; [reflexivity|]. by rewrite app_nil_r. }
  run_steps. destruct (ev_dont_write_existing event); eexists _, _; simpl;
    (split; [reflexivity|]); simpl; repeat split; try done.
  intros key Hkey. rewrite lookup_insert_ne; [done|congruence].
Qed.

(** Whatever happens in the error step, it publishes nothing but
    'New scrape errors'. *)
Lemma track_errors_sns event (errors : list (string * Exception)) return_message w outcome w3 :
  track_errors event errors return_message w = (outcome, w3) →
  ∃ fresh, sns w3 = sns w ++ fresh ∧ ∀ p, p ∈ fresh → Subject p = "New scrape errors".
Proof.
  unfold track_errors. run_steps. intros Hrun.
  repeat case_match; simplify_eq; simpl;
    first [ exists []; split; [by rewrite app_nil_r | by intros q ?%elem_of_nil]
          | eexists [_]; split; [reflexivity | by intros q ->%list_elem_of_singleton] ].
Qed.

(** With the errors document in place the error step returns; it publishes
    exactly when some error of the run is for a company without a stored
    error, and leaves the records of the run in the errors object. *)
Lemma track_errors_run event (errors : list (string * Exception)) return_message w
    (old : list ErrorRecord) :
  s3 w !! (bucket_name (aws_config event), errors_json (aws_config event))
    = Some (ErrorsDoc old) →
  ∃ return_message' w3,
    track_errors event errors return_message w = (inr return_message', w3)
    ∧ sns w3 = sns w ++ (if existsb (λ entry, bool_decide (entry.1 ∉ company_name <$> old))
                                    errors
                         then [mkPublication (sns_topic_arn (aws_config event))
                                             (errors_message errors) "New scrape errors"]
                         else [])
    ∧ s3 w3 !! (bucket_name (aws_config event), errors_json (aws_config event))
      = Some (ErrorsDoc (error_record <$> errors)).
Proof.
  intros Hold. unfold track_errors. run_steps. rewrite Hold.
  assert (∀ l : list (string * Exception),
    existsb (λ entry, bool_decide
               (entry.1 ∉ (list_to_set (company_name <$> old) : gset string))) l
    = existsb (λ entry, bool_decide (entry.1 ∉ company_name <$> old)) l) as Hnames.
  { intros l. induction l as [|entry l IH]; [done|]. simpl. rewrite IH. f_equal.
    apply bool_decide_ext. by rewrite elem_of_list_to_set. }
  destruct errors as [|entry errors].
  - destruct (decide ((list_to_set (company_name <$> old) : gset string) = ∅)) as [Hnone|Hsome].
    + eexists _, _. split; [reflexivity|]. simpl. rewrite app_nil_r. split; [done|].
      destruct old as [|record old]; [done|]. simpl in Hnone. set_solver.
    + eexists _, _. split; [reflexivity|]. simpl. rewrite app_nil_r. split; [done|].
      by rewrite lookup_insert_eq.
  - rewrite Hnames.
    destruct (existsb _ (entry :: errors)); eexists _, _; (split; [reflexivity|]); simpl;
      rewrite ?app_nil_r, lookup_insert_eq; done.
Qed.

Lemma published_app subject w w' (fresh : list Publication) :
  sns w' = sns w ++ fresh →
  published subject w w' ↔ ∃ p, p ∈ fresh ∧ Subject p = subject.
Proof.
  intros Hsns. unfold published. split.
  - intros (fresh' & p & Hsns' & Hp). rewrite Hsns in Hsns'.
    apply app_inv_head in Hsns' as <-. by exists p.
  - intros (p & Hp). by exists fresh, p.
Qed.

(** A run whose scrape returned, with the errors document in place and
    kept apart from the seen-IDs object: the handler returns, and this is
    what it published and what the errors object holds afterwards. *)
Lemma lambda_handler_run config event (local : bool) w w1
    (new : list (string * NewJobsInfo D)) (existing' : gmap string (list string))
    (verify : list (Company.t D)) (errors : list (string * Exception))
    (old : list ErrorRecord) :
  handler_scrape config event w = (inr (new, existing', verify, errors), w1) →
  s3 w !! (bucket_name (aws_config event), errors_json (aws_config event))
    = Some (ErrorsDoc old) →
  existing_jobs_key splitext event (clock w) ≠ errors_json (aws_config event) →
  ∃ response w',
    lambda_handler splitext config event local w = (inr response, w')
    ∧ sns w' = sns w
               ++ match new with
                  | [] => []
                  | _ :: _ => [mkPublication (sns_topic_arn (aws_config event))
                                             (format_new_jobs_message new) "New jobs"]
                  end
               ++ (if existsb (λ entry, bool_decide (entry.1 ∉ company_name <$> old)) errors
                   then [mkPublication (sns_topic_arn (aws_config event))
                                       (errors_message errors) "New scrape errors"]
                   else [])
    ∧ s3 w' !! (bucket_name (aws_config event), errors_json (aws_config event))
      = Some (ErrorsDoc (error_record <$> errors)).
Proof.
  intros Hscrape Hold Hkeys.
  destruct (handler_scrape_frame _ _ _ _ _ Hscrape) as (Hs3 & Hsns & Hclock).
  destruct (notify_new_jobs_run event new existing' w1)
    as (message & w2 & Hnotify & Hsns2 & Hclock2 & Hs32).
  destruct (track_errors_run event errors message w2 old)
    as (message' & w3 & Htrack & Hsns3 & Hs33).
  { rewrite Hs32, Hs3; [done|]. rewrite Hclock. congruence. }
  exists (mkResponse 200 message'), w3. split; [|split; [|done]].
  - unfold lambda_handler, mbind, run_bind. rewrite Hscrape. cbv beta iota.
    by rewrite Hnotify, Htrack.
  - by rewrite Hsns3, Hsns2, Hsns, <- app_assoc.
Qed.

(** C2: when the scrape stage returns, a 'New jobs' notification is
    published during the run exactly when its [new_relevant_jobs] is not
    empty; when the scrape stage raises, none is published. *)
Theorem new_jobs_notification_iff config event (local : bool) w :
  match handler_scrape config event w with
  | (inr (new_relevant_jobs, _, _, _), _) =>
      published "New jobs" w (lambda_handler splitext config event local w).2
      ↔ new_relevant_jobs ≠ []
  | (inl _, _) =>
      ¬ published "New jobs" w (lambda_handler splitext config event local w).2
  end.
Proof.
  unfold lambda_handler, mbind, run_bind. cbv beta.
  destruct (handler_scrape config event w) as [[e|[[[new existing'] verify] errors]] w1]
    eqn:Hscrape;
    destruct (handler_scrape_frame _ _ _ _ _ Hscrape) as (_ & Hsns & _).
  - simpl. rewrite (published_app _ w w1 []) by (by rewrite app_nil_r).
    by intros (p & ?%elem_of_nil & _).
  - destruct (notify_new_jobs_run event new existing' w1)
      as (message & w2 & Hnotify & Hsns2 & _).
    cbv beta iota. rewrite Hnotify.
    destruct (track_errors event errors message w2) as [outcome w3] eqn:Htrack.
    destruct (track_errors_sns _ _ _ _ _ _ Htrack) as (fresh & Hsns3 & Hfresh).
    assert ((match outcome with
             | inr a => (mret (mkResponse 200 a) : Run (World D) Response) w3
             | inl e => (inl e, w3)
             end).2 = w3) as -> by by destruct outcome.
    rewrite Hsns2, Hsns, <- app_assoc in Hsns3.
    rewrite (published_app _ w w3 _ Hsns3). split.
    + intros (p & Hp & Hsubject) ->. simpl in Hp.
      apply Hfresh in Hp. congruence.
    + intros Hnew. destruct new as [|entry new]; [done|].
      eexists. split; [by left|done].
Qed.

(** C6: for a run whose scrape returned, with the errors document in
    place, the handler returns and a 'New scrape errors' notification is
    published during the run exactly when some error of the run is for a
    company whose name is on no stored error record. *)
Theorem new_errors_notification_iff config event (local : bool) w w1
    (new : list (string * NewJobsInfo D)) (existing' : gmap string (list string))
    (verify : list (Company.t D)) (errors : list (string * Exception))
    (old : list ErrorRecord) :
  handler_scrape config event w = (inr (new, existing', verify, errors), w1) →
  s3 w !! (bucket_name (aws_config event), errors_json (aws_config event))
    = Some (ErrorsDoc old) →
  existing_jobs_key splitext event (clock w) ≠ errors_json (aws_config event) →
  ∃ response w',
    lambda_handler splitext config event local w = (inr response, w')
    ∧ (published "New scrape errors" w w'
       ↔ ∃ name e, (name, e) ∈ errors ∧ name ∉ company_name <$> old).
Proof.
  intros Hscrape Hold Hkeys.
  destruct (lambda_handler_run config event local w w1 new existing' verify errors old)
    as (response & w' & Hrun & Hsns & _); [done..|].
  exists response, w'. split; [done|].
  rewrite (published_app _ w w' _ Hsns). split.
  - intros (p & [Hp|Hp]%elem_of_app & Hsubject).
    { destruct new; [by apply elem_of_nil in Hp|].
      apply list_elem_of_singleton in Hp as ->. done. }
    destruct (existsb _ errors) eqn:Hsome; [|by apply elem_of_nil in Hp].
    apply existsb_exists in Hsome as ([name e] & Hin & Hnew).
    exists name, e. split; [by apply list_elem_of_In|].
    by apply bool_decide_eq_true in Hnew.
  - intros (name & e & Hin & Hnew).
    assert (existsb (λ entry, bool_decide (entry.1 ∉ company_name <$> old)) errors = true)
      as ->.
    { apply existsb_exists. exists (name, e).
      split; [by apply list_elem_of_In|]. by apply bool_decide_eq_true. }
    eexists. split; [apply elem_of_app; right; by left|done].
Qed.

(** C7: for a run whose scrape returned, with the errors document in
    place, the handler returns and the errors object then holds the
    records of the errors of the run, one per error in scrape order, each
    with the company name and [str] of the exception; with no error in the
    run it holds the empty list. *)
Theorem stored_errors_are_current config event (local : bool) w w1
    (new : list (string * NewJobsInfo D)) (existing' : gmap string (list string))
    (verify : list (Company.t D)) (errors : list (string * Exception))
    (old : list ErrorRecord) :
  handler_scrape config event w = (inr (new, existing', verify, errors), w1) →
  s3 w !! (bucket_name (aws_config event), errors_json (aws_config event))
    = Some (ErrorsDoc old) →
  existing_jobs_key splitext event (clock w) ≠ errors_json (aws_config event) →
  ∃ response w',
    lambda_handler splitext config event local w = (inr response, w')
    ∧ s3 w' !! (bucket_name (aws_config event), errors_json (aws_config event))
      = Some (ErrorsDoc (List.map (λ entry, mkErrorRecord entry.1 (str_of_exception entry.2))
                                  errors))
    ∧ (errors = [] →
       s3 w' !! (bucket_name (aws_config event), errors_json (aws_config event))
       = Some (ErrorsDoc [])).
Proof.
  intros Hscrape Hold Hkeys.
  destruct (lambda_handler_run config event local w w1 new existing' verify errors old)
    as (response & w' & Hrun & _ & Hstored); [done..|].
  exists response, w'. split; [done|]. split; [done|]. by intros ->.
Qed.

End handler.

Lemma new_errors_notification_iff_witness :
  ∃ response w',
    lambda_handler StubDriver.splitext Fixtures.config Fixtures.event false Fixtures.world
    = (inr response, w')
    ∧ published "New scrape errors" Fixtures.world w'.
Proof.
  assert (handler_scrape Fixtures.config Fixtures.event Fixtures.world
          = (inr (Fixtures.world_new_jobs, Fixtures.world_seen, [],
                  [("Ghost", Fixtures.ghost_error)]),
             Fixtures.world_scraped)) as Hscrape by (vm_compute; reflexivity).
  assert (s3 Fixtures.world !! ("job-scrape", "errors.json") = Some (ErrorsDoc []))
    as Hold by (vm_compute; reflexivity).
  destruct (new_errors_notification_iff StubDriver.splitext Fixtures.config Fixtures.event
              false _ _ _ _ _ _ _ Hscrape Hold) as (response & w' & Hrun & Hiff).
  { discriminate. }
  exists response, w'. split; [done|]. apply Hiff.
  exists "Ghost", Fixtures.ghost_error.
  split; [by left|]. by intros ?%elem_of_nil.
Defined.

Lemma stored_errors_are_current_witness :
  ∃ response w',
    lambda_handler StubDriver.splitext Fixtures.config Fixtures.event false Fixtures.world
    = (inr response, w')
    ∧ s3 w' !! ("job-scrape", "errors.json")
      = Some (ErrorsDoc [mkErrorRecord "Ghost" "net::ERR_NAME_NOT_RESOLVED"]).
Proof.
  assert (handler_scrape Fixtures.config Fixtures.event Fixtures.world
          = (inr (Fixtures.world_new_jobs, Fixtures.world_seen, [],
                  [("Ghost", Fixtures.ghost_error)]),
             Fixtures.world_scraped)) as Hscrape by (vm_compute; reflexivity).
  assert (s3 Fixtures.world !! ("job-scrape", "errors.json") = Some (ErrorsDoc []))
    as Hold by (vm_compute; reflexivity).
  destruct (stored_errors_are_current StubDriver.splitext Fixtures.config Fixtures.event
              false _ _ _ _ _ _ _ Hscrape Hold) as (response & w' & Hrun & Hstored & _).
  { discriminate. }
  exists response, w'. split; [done|]. apply Hstored.
Defined.

(** A first run over [Fixtures.config]: new jobs for two companies and a
    new error for the third, hence one notification of each kind, in this
    order. *)
Example first_run_notifications :
  Subject <$> sns (lambda_handler StubDriver.splitext Fixtures.config Fixtures.event false
                                  Fixtures.world).2
  = ["New jobs"; "New scrape errors"].
Proof. by vm_compute. Qed.

(** * Further properties of the code *)

(** ** The seen-IDs map and the new jobs, exactly *)

Section diff_exact.
Context {D : Type} `{WebDriver D} `{Str.Lowering}.

Implicit Types (new : list (string * NewJobsInfo D)) (ex : gmap string (gset string)).
Implicit Types (scraped : list (Company.t D * JobPosting.t)).

Lemma elem_of_scraped_ids company_name scraped job_id :
  job_id ∈ scraped_ids company_name scraped
  ↔ ∃ company job, (company, job) ∈ scraped ∧ Company.name company = company_name
                   ∧ JobPosting.id job = job_id.
Proof.
  unfold scraped_ids. rewrite elem_of_list_to_set, list_elem_of_fmap. split.
  - intros ([company job] & -> & [Hname Hin]%list_elem_of_filter). by exists company, job.
  - intros (company & job & Hin & Hname & <-). exists (company, job).
    split; [done|]. by apply list_elem_of_filter.
Qed.

Lemma scraped_ids_cons company job scraped company_name :
  scraped_ids company_name ((company, job) :: scraped)
  = (if decide (Company.name company = company_name) then {[JobPosting.id job]} else ∅)
    ∪ scraped_ids company_name scraped.
Proof.
  apply set_eq. intros job_id. rewrite elem_of_union, !elem_of_scraped_ids. split.
  - intros (c & j & [Heq|Hin]%elem_of_cons & Hname & Hid).
    + simplify_eq. left. rewrite decide_True by done. by apply elem_of_singleton.
    + right. by exists c, j.
  - intros [Hhead|(c & j & Hin & Hname & Hid)].
    + case_decide; [|by apply not_elem_of_empty in Hhead].
      apply elem_of_singleton in Hhead. exists company, job. split; [by left|done].
    + exists c, j. split; [by right|done].
Qed.

(** The seen set of a name after the loop: what it was, and the IDs
    scraped for the name. *)
Lemma seen_foldl_ids scraped new ex company_name :
  default ∅ ((foldl group_job (new, ex) scraped).2 !! company_name)
  = default ∅ (ex !! company_name) ∪ scraped_ids company_name scraped.
Proof.
  revert new ex. induction scraped as [|[company job] scraped IH]; intros new ex.
  { simpl. unfold scraped_ids. simpl. by rewrite union_empty_r_L. }
  cbn [foldl]. unfold group_job at 2. rewrite scraped_ids_cons.
  destruct (decide (Company.name company = company_name)) as [<-|Hne].
  - destruct (decide (JobPosting.id job ∈ default ∅ (ex !! Company.name company)))
      as [Hin|Hnin]; rewrite IH, lookup_insert_eq; simpl.
    + apply set_eq. intros i. rewrite !elem_of_union, elem_of_singleton.
      split; [tauto|]. intros [?|[->|?]]; tauto.
    + by rewrite (assoc_L (∪)).
  - destruct (decide (JobPosting.id job ∈ default ∅ (ex !! Company.name company)));
      rewrite IH, lookup_insert_ne by done; by rewrite union_empty_l_L.
Qed.

(** The keys after the loop: the keys before, and the names scraped. *)
Lemma seen_foldl_keys scraped new ex company_name :
  is_Some ((foldl group_job (new, ex) scraped).2 !! company_name)
  ↔ is_Some (ex !! company_name)
    ∨ ∃ company job, (company, job) ∈ scraped ∧ Company.name company = company_name.
Proof.
  revert new ex. induction scraped as [|[company job] scraped IH]; intros new ex.
  { simpl. split; [by left|]. intros [?|(c & j & ?%elem_of_nil & _)]; done. }
  cbn [foldl]. unfold group_job at 2.
  assert (∀ value : gset string,
    is_Some (<[Company.name company := value]> ex !! company_name)
    ↔ is_Some (ex !! company_name) ∨ Company.name company = company_name) as Hinsert.
  { intros value. destruct (decide (Company.name company = company_name)) as [<-|Hne].
    - rewrite lookup_insert_eq. split; [by right|by eexists].
    - rewrite lookup_insert_ne by done. split; [by left|]. by intros [?|?]. }
  assert ((∃ c j, (c, j) ∈ (company, job) :: scraped ∧ Company.name c = company_name)
          ↔ Company.name company = company_name
            ∨ ∃ c j, (c, j) ∈ scraped ∧ Company.name c = company_name) as Hcons.
  { split.
    - intros (c & j & [Heq|Hin]%elem_of_cons & Hname); [simplify_eq; by left|].
      right. by exists c, j.
    - intros [Hname|(c & j & Hin & Hname)].
      + exists company, job. split; [by left|done].
      + exists c, j. split; [by right|done]. }
  rewrite Hcons.
  destruct (decide (JobPosting.id job ∈ default ∅ (ex !! Company.name company)));
    rewrite IH, Hinsert; tauto.
Qed.

Lemma list_to_set_sorted_ids (value : gset string) :
  list_to_set (sorted_ids value) = value.
Proof.
  apply set_eq. intros job_id. rewrite elem_of_list_to_set. apply sorted_ids_spec.
Qed.

(** X1: the map of seen IDs that [get_new_relevant_jobs] returns has as
    keys the keys of the input map and the names of the companies with a
    scraped relevant job, and lists under a name exactly the IDs the input
    lists for it and the IDs scraped for it. *)
Theorem returned_seen_ids_exact (config : Config D) (existing : gmap string (list string))
    (limit additional : option string) (d d' : D) (scraped : Scraped D) :
  get_relevant_jobs config limit additional d = (inr scraped, d') →
  ∃ new existing',
    get_new_relevant_jobs config existing limit additional d
    = (inr (new, existing', verify_no_jobs scraped, errors scraped), d')
    ∧ (∀ company_name,
          is_Some (existing' !! company_name)
          ↔ is_Some (existing !! company_name)
            ∨ ∃ company job, (company, job) ∈ relevant_jobs scraped
                             ∧ Company.name company = company_name)
    ∧ (∀ company_name ids' job_id,
          existing' !! company_name = Some ids' →
          job_id ∈ ids'
          ↔ job_id ∈ seen_ids existing company_name
            ∨ ∃ company job, (company, job) ∈ relevant_jobs scraped
                             ∧ Company.name company = company_name
                             ∧ JobPosting.id job = job_id).
Proof.
  intros Hscrape. eexists _, _. split; [|split].
  { by apply get_new_relevant_jobs_returns. }
  - intros company_name.
    rewrite lookup_fmap, fmap_is_Some, seen_foldl_keys, lookup_fmap, fmap_is_Some. done.
  - intros company_name ids' job_id. rewrite lookup_fmap.
    destruct (_ !! company_name) as [value|] eqn:Hvalue; [|done].
    intros [= <-].
    pose proof (seen_foldl_ids (relevant_jobs scraped) [] (list_to_set <$> existing)
                  company_name) as Hids.
    rewrite Hvalue, seen_ids_lookup in Hids. simpl in Hids.
    etrans; [apply sorted_ids_spec|].
    by rewrite Hids, elem_of_union, elem_of_scraped_ids.
Qed.

(** An entry of [new_relevant_jobs] is well formed with respect to a scrape:
    its key is the name of its company, the company comes from the scrape
    and its list of jobs is not empty. *)
Lemma new_jobs_add_entries (pool : list (Company.t D * JobPosting.t)) company job new :
  (company, job) ∈ pool →
  Forall (λ entry, entry.1 = Company.name (info_company entry.2)
                   ∧ info_jobs entry.2 ≠ []
                   ∧ ∃ job', (info_company entry.2, job') ∈ pool) new →
  Forall (λ entry, entry.1 = Company.name (info_company entry.2)
                   ∧ info_jobs entry.2 ≠ []
                   ∧ ∃ job', (info_company entry.2, job') ∈ pool)
         (new_jobs_add company job new).
Proof.
  intros Hpool. induction 1 as [|[key info] new (Hkey & Hjobs & Hcompany) Hnew IH]; simpl.
  - constructor; [|constructor]. simpl. eauto.
  - case_decide; constructor; simpl; try done.
    split; [done|]. split; [|done]. by destruct (info_jobs info).
Qed.

Lemma new_jobs_foldl_entries (pool scraped : list (Company.t D * JobPosting.t)) new ex :
  (∀ entry, entry ∈ scraped → entry ∈ pool) →
  Forall (λ entry, entry.1 = Company.name (info_company entry.2)
                   ∧ info_jobs entry.2 ≠ []
                   ∧ ∃ job', (info_company entry.2, job') ∈ pool) new →
  Forall (λ entry, entry.1 = Company.name (info_company entry.2)
                   ∧ info_jobs entry.2 ≠ []
                   ∧ ∃ job', (info_company entry.2, job') ∈ pool)
         (foldl group_job (new, ex) scraped).1.
Proof.
  revert new ex. induction scraped as [|[company job] scraped IH]; intros new ex Hpool Hnew;
    [done|].
  cbn [foldl]. unfold group_job at 2.
  case_decide; apply IH; try done; try (intros entry Hin; apply Hpool; by right).
  apply new_jobs_add_entries; [|done]. apply Hpool. by left.
Qed.

Lemma new_jobs_lookup_elem_of new key info :
  NoDup new.*1 → (key, info) ∈ new → new_jobs_lookup key new = Some info.
Proof.
  induction new as [|[k i] new IH]; simpl; [by intros _ ?%elem_of_nil|].
  intros [Hk Hnew]%NoDup_cons [Heq|Hin]%elem_of_cons.
  - simplify_eq. by rewrite decide_True.
  - rewrite decide_False; [by apply IH|].
    intros ->. apply Hk. apply list_elem_of_fmap. by exists (key, info).
Qed.

Lemma fresh_jobs_nil_iff company_name (seen : gset string) scraped :
  fresh_jobs company_name seen scraped = []
  ↔ ∀ company job, (company, job) ∈ scraped → Company.name company = company_name →
                   JobPosting.id job ∈ seen.
Proof.
  revert seen. induction scraped as [|[company job] scraped IH]; intros seen; simpl.
  { split; [|done]. by intros _ c j ?%elem_of_nil. }
  destruct (decide (Company.name company = company_name)) as [Hname|Hname].
  - destruct (decide (JobPosting.id job ∈ seen)) as [Hseen|Hseen].
    + rewrite IH. split.
      * intros Hrest c j [Heq|Hin]%elem_of_cons; [by simplify_eq|by apply Hrest].
      * intros Hall c j Hin. apply Hall. by right.
    + split; [done|]. intros Hall. destruct Hseen. apply (Hall company job); [by left|done].
  - rewrite IH. split.
    + intros Hrest c j [Heq|Hin]%elem_of_cons; [by simplify_eq|by apply Hrest].
    + intros Hall c j Hin. apply Hall. by right.
Qed.

(** X2: every entry of the returned [new_relevant_jobs] is filed under the
    name of its company, which is a company of the scrape, and carries at
    least one job, the jobs reported under that name; and
    [new_relevant_jobs] is empty exactly when the ID of every scraped
    relevant job was already seen for its company. *)
Theorem new_jobs_entries_nonempty (config : Config D) (existing : gmap string (list string))
    (limit additional : option string) (d d' : D) (scraped : Scraped D) :
  get_relevant_jobs config limit additional d = (inr scraped, d') →
  ∃ new existing',
    get_new_relevant_jobs config existing limit additional d
    = (inr (new, existing', verify_no_jobs scraped, errors scraped), d')
    ∧ (∀ key info,
          (key, info) ∈ new →
          key = Company.name (info_company info)
          ∧ (∃ job, (info_company info, job) ∈ relevant_jobs scraped)
          ∧ info_jobs info ≠ []
          ∧ reported_jobs key new = info_jobs info)
    ∧ (new = []
       ↔ ∀ company job, (company, job) ∈ relevant_jobs scraped →
                        JobPosting.id job ∈ seen_ids existing (Company.name company)).
Proof.
  intros Hscrape. eexists _, _. split; [by apply get_new_relevant_jobs_returns|].
  set (ex := (list_to_set <$> existing : gmap string (gset string))).
  pose proof (new_jobs_foldl_entries (relevant_jobs scraped) (relevant_jobs scraped) [] ex
                (λ _ Hin, Hin) (Forall_nil_2 _)) as Hentries.
  pose proof (new_jobs_keys_NoDup (relevant_jobs scraped) [] ex (NoDup_nil_2)) as Hkeys.
  rewrite Forall_forall in Hentries. split.
  - intros key info Hin. destruct (Hentries _ Hin) as (Hkey & Hjobs & Hcompany).
    repeat split; try done.
    unfold reported_jobs. by rewrite (new_jobs_lookup_elem_of _ _ _ Hkeys Hin).
  - split.
    + intros Hnil company job Hin.
      pose proof (reported_jobs_foldl (relevant_jobs scraped) [] ex (Company.name company))
        as Hreported.
      rewrite Hnil in Hreported. unfold ex in Hreported. rewrite seen_ids_lookup in Hreported.
      symmetry in Hreported. apply fresh_jobs_nil_iff with (company := company) (job := job)
        in Hreported; done.
    + intros Hseen.
      destruct (foldl group_job ([], ex) (relevant_jobs scraped)).1 as [|[key info] new]
        eqn:Hnew; [done|].
      destruct (Hentries (key, info)) as (Hkey & Hjobs & _); [by left|].
      pose proof (reported_jobs_foldl (relevant_jobs scraped) [] ex key) as Hreported.
      rewrite Hnew in Hreported. unfold reported_jobs at 1 in Hreported. simpl in Hreported.
      rewrite decide_True in Hreported by done. simpl in Hreported.
      unfold ex in Hreported. rewrite seen_ids_lookup in Hreported.
      destruct Hjobs. simpl. rewrite Hreported. apply fresh_jobs_nil_iff.
      intros company job Hin <-. by apply Hseen.
Qed.

(** X3: feeding the returned map of seen IDs into a second run whose
    scrape holds no company name and ID beyond those of the first run
    yields no new job, and returns that map unchanged. *)
Theorem second_run_reports_nothing (config config2 : Config D)
    (existing : gmap string (list string))
    (limit additional limit2 additional2 : option string)
    (d d' d2 d2' : D) (scraped scraped2 : Scraped D) :
  get_relevant_jobs config limit additional d = (inr scraped, d') →
  get_relevant_jobs config2 limit2 additional2 d2 = (inr scraped2, d2') →
  (∀ company job,
      (company, job) ∈ relevant_jobs scraped2 →
      ∃ company' job', (company', job') ∈ relevant_jobs scraped
                       ∧ Company.name company' = Company.name company
                       ∧ JobPosting.id job' = JobPosting.id job) →
  ∃ new existing',
    get_new_relevant_jobs config existing limit additional d
    = (inr (new, existing', verify_no_jobs scraped, errors scraped), d')
    ∧ get_new_relevant_jobs config2 existing' limit2 additional2 d2
      = (inr ([], existing', verify_no_jobs scraped2, errors scraped2), d2').
Proof.
  intros Hscrape Hscrape2 Hsame. eexists _, _.
  split; [by apply get_new_relevant_jobs_returns|].
  rewrite (get_new_relevant_jobs_returns _ _ _ _ _ _ _ Hscrape2).
  set (ex := (list_to_set <$> existing : gmap string (gset string))).
  set (ex1 := (foldl group_job ([], ex) (relevant_jobs scraped)).2).
  set (ex2 := (list_to_set <$> (sorted_ids <$> ex1) : gmap string (gset string))).
  assert (ex2 = ex1) as Hex2.
  { unfold ex2. rewrite <- map_fmap_compose. apply map_eq. intros name.
    rewrite lookup_fmap. destruct (ex1 !! name); simpl; [|done].
    by rewrite list_to_set_sorted_ids. }
  assert (∀ company job, (company, job) ∈ relevant_jobs scraped2 →
            JobPosting.id job ∈ default ∅ (ex1 !! Company.name company)) as Hseen.
  { intros company job Hin. unfold ex1. rewrite seen_foldl_ids.
    apply elem_of_union. right. apply elem_of_scraped_ids.
    destruct (Hsame _ _ Hin) as (company' & job' & ? & ? & ?). by exists company', job'. }
  assert (∀ scraped' : list (Company.t D * JobPosting.t),
            (∀ entry, entry ∈ scraped' → entry ∈ relevant_jobs scraped2) →
            foldl group_job ([], ex1) scraped' = ([], ex1)) as Hfold.
  { induction scraped' as [|[company job] scraped' IH]; intros Hsub; [done|].
    cbn [foldl]. unfold group_job at 2.
    specialize (Hseen company job (Hsub _ (list_elem_of_here _ _))).
    rewrite decide_True by done.
    assert (<[Company.name company := default ∅ (ex1 !! Company.name company)]> ex1 = ex1)
      as ->.
    { apply insert_id. destruct (ex1 !! Company.name company); [done|].
      by apply not_elem_of_empty in Hseen. }
    apply IH. intros entry Hin. apply Hsub. by right. }
  fold ex2. by rewrite Hex2, Hfold.
Qed.

End diff_exact.

Lemma returned_seen_ids_exact_witness :
  ∃ new existing',
    get_new_relevant_jobs Fixtures.acme_only {["Acme" := ["7"]]} None None Fixtures.web
    = (inr (new, existing', [], []), Fixtures.acme_done)
    ∧ is_Some (existing' !! "Acme").
Proof.
  assert (get_relevant_jobs Fixtures.acme_only None None Fixtures.web
          = (inr Fixtures.acme_scraped, Fixtures.acme_done)) as Hscrape by reflexivity.
  destruct (returned_seen_ids_exact Fixtures.acme_only {["Acme" := ["7"]]} None None
              Fixtures.web Fixtures.acme_done Fixtures.acme_scraped Hscrape)
    as (new & existing' & Hrun & Hkeys & _).
  exists new, existing'. split; [done|]. apply Hkeys. left. by eexists.
Defined.

Lemma new_jobs_entries_nonempty_witness :
  ∃ new existing',
    get_new_relevant_jobs Fixtures.acme_only {["Acme" := ["1"]]} None None Fixtures.web
    = (inr (new, existing', [], []), Fixtures.acme_done)
    ∧ new = [].
Proof.
  assert (get_relevant_jobs Fixtures.acme_only None None Fixtures.web
          = (inr Fixtures.acme_scraped, Fixtures.acme_done)) as Hscrape by reflexivity.
  destruct (new_jobs_entries_nonempty Fixtures.acme_only {["Acme" := ["1"]]} None None
              Fixtures.web Fixtures.acme_done Fixtures.acme_scraped Hscrape)
    as (new & existing' & Hrun & _ & Hempty).
  exists new, existing'. split; [done|]. apply Hempty.
  intros company job [Heq|[Heq|Hin%elem_of_nil]%elem_of_cons]%elem_of_cons;
    [| |done]; simplify_eq; by vm_compute.
Defined.

Lemma second_run_reports_nothing_witness :
  ∃ new existing',
    get_new_relevant_jobs Fixtures.acme_only ∅ None None Fixtures.web
    = (inr (new, existing', [], []), Fixtures.acme_done)
    ∧ get_new_relevant_jobs Fixtures.acme_only existing' None None Fixtures.web
      = (inr ([], existing', [], []), Fixtures.acme_done).
Proof.
  assert (get_relevant_jobs Fixtures.acme_only None None Fixtures.web
          = (inr Fixtures.acme_scraped, Fixtures.acme_done)) as Hscrape by reflexivity.
  apply (second_run_reports_nothing Fixtures.acme_only Fixtures.acme_only ∅
           None None None None Fixtures.web Fixtures.acme_done Fixtures.web
           Fixtures.acme_done Fixtures.acme_scraped Fixtures.acme_scraped Hscrape Hscrape).
  intros company job Hin. by exists company, job.
Defined.

(** ** One company's page *)

Section company_page.
Context {D : Type} `{WebDriver D} `{Str.Lowering}.

(** [has_jobs] on a page with a non-empty body, as a function of its text. *)
Lemma has_jobs_on_text (company : Company.t D) (d d' : D) (text : string) :
  driver_body_text d = (inr text, d') →
  text ≠ EmptyString →
  has_jobs company d
  = (inr match Str.truthy (Company.no_jobs_phrase company) with
         | Some phrase =>
             if Str.contains (Str.lower phrase) (Str.lower text)
             then (false, SPECIFIC_NO_JOBS_PHRASE_FOUND)
             else (true, NO_JOBS_PHRASE_NOT_FOUND_BUT_NO_JOBS)
         | None =>
             if forallb (λ phrase, negb (Str.contains (Str.lower phrase) (Str.lower text)))
                        generic_no_jobs_phrases
             then (true, NO_JOBS_PHRASE_NOT_FOUND_BUT_NO_JOBS)
             else (false, GENERIC_NO_JOBS_PHRASE_FOUND)
         end, d').
Proof.
  intros Htext Hne. unfold has_jobs, mbind, run_bind. rewrite Htext.
  rewrite decide_False by (by rewrite Str.lower_empty).
  destruct (Str.truthy (Company.no_jobs_phrase company)) as [phrase|].
  - by destruct (Str.contains _ _).
  - by destruct (forallb _ _).
Qed.

(** X4: the status that [has_jobs] returns for a non-empty page tells
    which phrase was found: the company's own one, a generic one (only
    looked for when the company has none), or none; it is never
    [SOME_JOB_FOUND], and the verdict is [true] exactly when no phrase was
    found. *)
Theorem has_jobs_status (company : Company.t D) (d d' : D) (text : string) :
  driver_body_text d = (inr text, d') →
  text ≠ EmptyString →
  ∃ verdict status,
    has_jobs company d = (inr (verdict, status), d')
    ∧ (status = SPECIFIC_NO_JOBS_PHRASE_FOUND
       ↔ ∃ phrase, Str.truthy (Company.no_jobs_phrase company) = Some phrase
                   ∧ Str.occurs_ci phrase text)
    ∧ (status = GENERIC_NO_JOBS_PHRASE_FOUND
       ↔ Str.truthy (Company.no_jobs_phrase company) = None
         ∧ ∃ phrase, phrase ∈ generic_no_jobs_phrases ∧ Str.occurs_ci phrase text)
    ∧ status ≠ SOME_JOB_FOUND
    ∧ (verdict = true ↔ status = NO_JOBS_PHRASE_NOT_FOUND_BUT_NO_JOBS).
Proof.
  intros Htext Hne. rewrite (has_jobs_on_text company d d' text Htext Hne).
  destruct (Str.truthy (Company.no_jobs_phrase company)) as [phrase|].
  - pose proof (contains_lower_iff phrase text) as Hc.
    destruct (Str.contains (Str.lower phrase) (Str.lower text)); eexists _, _;
      (split; [reflexivity|]); repeat split; try done.
    + intros _. exists phrase. split; [done|]. by apply Hc.
    + by intros [? _].
    + intros (phrase' & [= <-] & Hocc). apply Hc in Hocc. done.
    + by intros [? _].
  - pose proof (phrase_found_iff generic_no_jobs_phrases text) as Hc.
    destruct (forallb _ generic_no_jobs_phrases); eexists _, _;
      (split; [reflexivity|]); repeat split; try done.
    + by intros (? & ? & _).
    + intros [_ Hocc]. apply Hc in Hocc. done.
    + by intros (? & ? & _).
    + by apply Hc.
Qed.

(** The statuses that come with each verdict of [has_jobs]. *)
Lemma has_jobs_verdict_status (company : Company.t D) (d d' : D) verdict status :
  has_jobs company d = (inr (verdict, status), d') →
  if verdict then status = NO_JOBS_PHRASE_NOT_FOUND_BUT_NO_JOBS
  else status = SPECIFIC_NO_JOBS_PHRASE_FOUND ∨ status = GENERIC_NO_JOBS_PHRASE_FOUND.
Proof.
  unfold has_jobs, mbind, run_bind, raise, mret, run_ret.
  repeat case_match; intros; simplify_eq; auto.
Qed.

(** X5: whatever [get_company_relevant_jobs] returns, every job in it has
    a relevant title; a non-empty list comes with [SOME_JOB_FOUND], and a
    status that says a no-jobs phrase was found comes with no job. *)
Theorem company_jobs_are_relevant (company : Company.t D) (terms : list string)
    (d d' : D) (jobs : list JobPosting.t) (status : JobsPageStatus) :
  get_company_relevant_jobs company terms d = (inr (jobs, status), d') →
  (∀ job, job ∈ jobs → title_is_relevant company (JobPosting.title job) terms = true)
  ∧ (jobs ≠ [] → status = SOME_JOB_FOUND)
  ∧ (status = SPECIFIC_NO_JOBS_PHRASE_FOUND ∨ status = GENERIC_NO_JOBS_PHRASE_FOUND →
     jobs = []).
Proof.
  unfold get_company_relevant_jobs. unfold mbind at 1 2. unfold run_bind at 1 2.
  destruct (match Company.jobs_page company with
            | Some url => driver_get url
            | None => raise (PyExc "InvalidArgumentException" "invalid argument")
            end d) as [[e|[]] d1]; [done|].
  destruct (driver_execute_script _ d1) as [[e|[]] d2]; [done|].
  unfold mbind at 1. unfold run_bind at 1.
  destruct (has_jobs company d2) as [[e|[verdict status0]] d3] eqn:Hhas; [done|].
  apply has_jobs_verdict_status in Hhas. destruct verdict.
  - destruct (Company.jobs_page_class company) as [get_jobs|]; [|done].
    unfold mbind, run_bind. destruct (get_jobs d3) as [[e|found] d4]; [done|].
    intros [= <- <- <-]. split; [|split].
    + intros job Hin. apply list_elem_of_In, filter_In in Hin as [_ Hjob]. done.
    + destruct found; [done|]. done.
    + destruct found as [|job found]; [done|]. by intros [?|?].
  - intros [= <- <- <-]. split; [by intros job ?%elem_of_nil|]. split; done.
Qed.

(** X6: when the page shows a no-jobs phrase, [get_company_relevant_jobs]
    returns no job and the status of the phrase found, and the company's
    scraper is not run: the driver stays where reading the body left it. *)
Theorem no_jobs_phrase_skips_scraper (company : Company.t D) (terms : list string)
    (url text : string) (d d1 d2 d3 : D) :
  Company.jobs_page company = Some url →
  driver_get url d = (inr (), d1) →
  driver_execute_script "window.scrollTo(0, document.body.scrollHeight);" d1 = (inr (), d2) →
  driver_body_text d2 = (inr text, d3) →
  text ≠ EmptyString →
  no_jobs_phrase_occurs company text →
  ∃ status,
    get_company_relevant_jobs company terms d = (inr ([], status), d3)
    ∧ status = match Str.truthy (Company.no_jobs_phrase company) with
               | Some _ => SPECIFIC_NO_JOBS_PHRASE_FOUND
               | None => GENERIC_NO_JOBS_PHRASE_FOUND
               end.
Proof.
  intros Hpage Hget Hscroll Htext Hne Hocc.
  unfold get_company_relevant_jobs. unfold mbind at 1 2 3. unfold run_bind.
  rewrite Hpage, Hget, Hscroll, (has_jobs_on_text company d2 d3 text Htext Hne).
  unfold no_jobs_phrase_occurs in Hocc.
  destruct (Str.truthy (Company.no_jobs_phrase company)) as [phrase|].
  - apply contains_lower_iff in Hocc. rewrite Hocc. by eexists.
  - apply phrase_found_iff in Hocc. rewrite Hocc. by eexists.
Qed.

(** X7: when the page shows no no-jobs phrase, a company without a
    scraper makes [get_company_relevant_jobs] raise "Scrape not
    implemented"; with a scraper that returns, the result is the postings
    with a relevant title, in the scraper's order, and the status says
    whether the scraper found any posting at all. *)
Theorem page_with_jobs_runs_scraper (company : Company.t D) (terms : list string)
    (url text : string) (d d1 d2 d3 : D) :
  Company.jobs_page company = Some url →
  driver_get url d = (inr (), d1) →
  driver_execute_script "window.scrollTo(0, document.body.scrollHeight);" d1 = (inr (), d2) →
  driver_body_text d2 = (inr text, d3) →
  text ≠ EmptyString →
  ¬ no_jobs_phrase_occurs company text →
  match Company.jobs_page_class company with
  | None =>
      get_company_relevant_jobs company terms d
      = (inl (PyExc "Exception" "Scrape not implemented"), d3)
  | Some get_jobs =>
      ∀ jobs d4,
        get_jobs d3 = (inr jobs, d4) →
        get_company_relevant_jobs company terms d
        = (inr (List.filter (λ job, title_is_relevant company (JobPosting.title job) terms)
                            jobs,
                if bool_decide (jobs = []) then NO_JOBS_PHRASE_NOT_FOUND_BUT_NO_JOBS
                else SOME_JOB_FOUND), d4)
  end.
Proof.
  intros Hpage Hget Hscroll Htext Hne Hocc.
  unfold no_jobs_phrase_occurs in Hocc.
  assert (has_jobs company d2 = (inr (true, NO_JOBS_PHRASE_NOT_FOUND_BUT_NO_JOBS), d3))
    as Hhas.
  { rewrite (has_jobs_on_text company d2 d3 text Htext Hne).
    destruct (Str.truthy (Company.no_jobs_phrase company)) as [phrase|].
    - destruct (Str.contains _ _) eqn:Hc; [|done].
      by apply contains_lower_iff in Hc.
    - destruct (forallb _ _) eqn:Hc; [done|]. by apply phrase_found_iff in Hc. }
  destruct (Company.jobs_page_class company) as [get_jobs|] eqn:Hclass.
  - intros jobs d4 Hjobs. unfold get_company_relevant_jobs, mbind, run_bind.
    rewrite Hpage, Hget, Hscroll, Hhas, Hclass, Hjobs.
    by destruct jobs; case_bool_decide.
  - unfold get_company_relevant_jobs, mbind, run_bind.
    by rewrite Hpage, Hget, Hscroll, Hhas, Hclass.
Qed.

End company_page.

Lemma has_jobs_status_witness :
  ∃ verdict status,
    has_jobs Fixtures.lab Fixtures.sorry_page = (inr (verdict, status), Fixtures.sorry_page)
    ∧ status ≠ SOME_JOB_FOUND.
Proof.
  assert (driver_body_text Fixtures.sorry_page
          = (inr "Sorry, we have NO OPENINGS right now", Fixtures.sorry_page)) as Htext
    by reflexivity.
  destruct (has_jobs_status Fixtures.lab _ _ _ Htext) as (verdict & status & Hrun & Hrest);
    [done|].
  exists verdict, status. split; [done|]. apply Hrest.
Defined.

Lemma company_jobs_are_relevant_witness :
  title_is_relevant Fixtures.lab (JobPosting.title Fixtures.scientist) ["engineer"] = true.
Proof.
  assert (get_company_relevant_jobs Fixtures.lab ["engineer"] Fixtures.web
          = (inr ([Fixtures.scientist], SOME_JOB_FOUND), Fixtures.on_lab)) as Hrun
    by reflexivity.
  apply (company_jobs_are_relevant Fixtures.lab ["engineer"] _ _ _ _ Hrun). by left.
Defined.

Lemma no_jobs_phrase_skips_scraper_witness :
  ∃ status,
    get_company_relevant_jobs Fixtures.closed_shop [] Fixtures.shop_web
    = (inr ([], status), Fixtures.on_closed_shop).
Proof.
  destruct (no_jobs_phrase_skips_scraper Fixtures.closed_shop []
              "https://shop.example/jobs" "We have no openings at the moment"
              Fixtures.shop_web Fixtures.on_closed_shop Fixtures.on_closed_shop
              Fixtures.on_closed_shop) as (status & Hrun & _); try reflexivity.
  - discriminate.
  - exists "No openings". split; [apply list_elem_of_In; simpl; tauto|].
    by exists "we have ", " at the moment".
  - by exists status.
Defined.

Lemma page_with_jobs_runs_scraper_witness :
  get_company_relevant_jobs Fixtures.unscraped [] Fixtures.web
  = (inl (PyExc "Exception" "Scrape not implemented"), Fixtures.on_acme).
Proof.
  apply (page_with_jobs_runs_scraper Fixtures.unscraped []
           "https://acme.example/careers" "Join us! Software Engineer"
           Fixtures.web Fixtures.on_acme Fixtures.on_acme Fixtures.on_acme);
    try reflexivity.
  - discriminate.
  - intros (phrase & Hin & Hocc). apply contains_lower_iff in Hocc.
    vm_compute in Hin. repeat (apply elem_of_cons in Hin as [->|Hin]; [by vm_compute in Hocc|]).
    by apply elem_of_nil in Hin.
Defined.

(** ** The loop over the companies *)

Section scrape_loop.
Context {D : Type} `{WebDriver D} `{Str.Lowering}.

Lemma limited_out_iff (limit_company : option string) (company : Company.t D) :
  limited_out limit_company company = false
  ↔ match Str.truthy limit_company with
    | Some l => Str.occurs_ci l (Company.name company)
    | None => True
    end.
Proof.
  unfold limited_out. destruct (Str.truthy limit_company) as [l|]; [|done].
  rewrite negb_false_iff. apply contains_lower_iff.
Qed.

Lemma scrape_companies_limit limit terms (cs : list (Company.t D)) (acc : Scraped D) d :
  scrape_companies limit terms cs acc d
  = scrape_companies None terms (List.filter (λ c, negb (limited_out limit c)) cs) acc d.
Proof.
  revert acc d. induction cs as [|c cs IH]; intros acc d; [done|].
  cbn [scrape_companies List.filter].
  destruct (limited_out limit c); simpl; [apply IH|].
  destruct (Company.active c); [|apply IH].
  destruct (Str.truthy (Company.jobs_page c)); [|done].
  unfold mbind, run_bind. destruct (try_except _ d) as [[e|outcome] d1]; [done|]. apply IH.
Qed.

(** X8: a run limited to [limit_company] is the run, without limit, over
    the companies whose name contains [limit_company] up to case, in their
    order; a limit of [None] or of the empty string leaves out no
    company. *)
Theorem limit_company_is_a_filter (config : Config D) (limit additional : option string) :
  (∀ d, get_relevant_jobs config limit additional d
        = get_relevant_jobs
            (mkConfig (List.filter (λ c, negb (limited_out limit c)) (companies config))
                      (search_terms config))
            None additional d)
  ∧ (∀ company : Company.t D,
        negb (limited_out limit company) = true
        ↔ match limit with
          | None => True
          | Some l => l = EmptyString ∨ Str.occurs_ci l (Company.name company)
          end).
Proof.
  split.
  - intros d. unfold get_relevant_jobs, all_search_terms. cbn [companies search_terms].
    unfold mbind, run_bind. by rewrite scrape_companies_limit.
  - intros company. rewrite negb_true_iff, limited_out_iff.
    destruct limit as [l|]; simpl; [|done].
    destruct (decide (l = EmptyString)) as [->|Hne]; [tauto|]. tauto.
Qed.

(** The result of the loop over [c :: cs] is what [c] adds, followed by the
    result of the loop over [cs]. *)
Lemma scrape_companies_cons limit terms (c : Company.t D) (cs : list (Company.t D))
    d scraped d' :
  scrape_companies limit terms (c :: cs) no_scraped d = (inr scraped, d') →
  ∃ part rest d1,
    scraped = scraped_app part rest
    ∧ scrape_companies limit terms cs no_scraped d1 = (inr rest, d')
    ∧ contribution_of limit terms c part.
Proof.
  cbn [scrape_companies]. unfold contribution_of.
  destruct (limited_out limit c) eqn:Hlimit.
  { intros Hrest. exists no_scraped, scraped, d. split; [by destruct scraped|].
    split; [done|]. simpl.
    split; [by intros ? ? ?%elem_of_nil|]. split; [by intros ? ?%elem_of_nil|].
    split; [by intros ? ? ?%elem_of_nil|done]. }
  destruct (Company.active c) eqn:Hactive.
  - destruct (Str.truthy (Company.jobs_page c)) as [url|] eqn:Hpage; [|done].
    assert (scrapable limit c) as Hc by (by split; [|split; [|eexists]]).
    unfold mbind, run_bind, try_except.
    destruct (get_company_relevant_jobs c terms d) as [outcome d1] eqn:Hcompany.
    rewrite scrape_companies_acc.
    destruct (scrape_companies limit terms cs no_scraped d1) as [[e|rest] d2] eqn:Hrest;
      [done|].
    intros [= <- <-]. exists (record_outcome c outcome no_scraped), rest, d1.
    split; [done|]. split; [done|].
    try (rewrite decide_False by (intros [_ ?]; congruence)).
    destruct outcome as [e|[[|job found] status]]; simpl.
    + split; [by intros ? ? ?%elem_of_nil|]. split; [by intros ? ?%elem_of_nil|].
      split; [|done]. by intros name e' [= -> ->]%list_elem_of_singleton.
    + case_bool_decide; simpl.
      * split; [by intros ? ? ?%elem_of_nil|].
        split; [by intros ? ->%list_elem_of_singleton|].
        split; [by intros ? ? ?%elem_of_nil|done].
      * split; [by intros ? ? ?%elem_of_nil|]. split; [by intros ? ?%elem_of_nil|].
        split; [by intros ? ? ?%elem_of_nil|done].
    + split; [|split; [by intros ? ?%elem_of_nil|split; [by intros ? ? ?%elem_of_nil|done]]].
      intros company' job' Hin.
      change ((company', job') ∈ (λ job0, (c, job0)) <$> (job :: found)) in Hin.
      apply list_elem_of_fmap in Hin as (job0 & [= -> ->] & Hin).
      split; [done|]. split; [done|].
      by apply (company_jobs_are_relevant _ _ _ _ _ _ Hcompany).
  - rewrite scrape_companies_acc.
    destruct (scrape_companies limit terms cs no_scraped d) as [[e|rest] d2] eqn:Hrest;
      [done|].
    intros [= <- <-]. exists (mkScraped [] [Company.name c] [] []), rest, d.
    split; [done|]. split; [done|]. simpl. try (rewrite decide_True by done).
    split; [by intros ? ? ?%elem_of_nil|]. split; [by intros ? ?%elem_of_nil|].
    split; [by intros ? ? ?%elem_of_nil|done].
Qed.

(** Where each part of the loop's result comes from. *)
Lemma scrape_companies_origin limit terms (cs : list (Company.t D)) d scraped d' :
  scrape_companies limit terms cs no_scraped d = (inr scraped, d') →
  (∀ company job,
      (company, job) ∈ relevant_jobs scraped →
      company ∈ cs ∧ scrapable limit company
      ∧ title_is_relevant company (JobPosting.title job) terms = true)
  ∧ (∀ company, company ∈ verify_no_jobs scraped → company ∈ cs ∧ scrapable limit company)
  ∧ (∀ company_name e,
        (company_name, e) ∈ errors scraped →
        ∃ company, company ∈ cs ∧ scrapable limit company
                   ∧ Company.name company = company_name)
  ∧ skipped_companies scraped
    = Company.name <$> filter (λ c, limited_out limit c = false ∧ Company.active c = false) cs.
Proof.
  revert d scraped d'. induction cs as [|c cs IH]; intros d scraped d'.
  { intros [= <- <-]. simpl.
    split; [by intros ? ? ?%elem_of_nil|]. split; [by intros ? ?%elem_of_nil|].
    split; [by intros ? ? ?%elem_of_nil|done]. }
  intros (part & rest & d1 & -> & Hrest & Hjobs & Hverify & Herrors & Hskipped)
    %scrape_companies_cons.
  apply IH in Hrest as (Hjobs' & Hverify' & Herrors' & Hskipped').
  unfold scraped_app. simpl. split; [|split; [|split]].
  - intros company job [Hin|Hin]%elem_of_app.
    + destruct (Hjobs _ _ Hin) as (-> & ? & ?). split; [by left|done].
    + destruct (Hjobs' _ _ Hin) as (? & ? & ?). split; [by right|done].
  - intros company [Hin|Hin]%elem_of_app.
    + destruct (Hverify _ Hin) as (-> & ?). split; [by left|done].
    + destruct (Hverify' _ Hin) as (? & ?). split; [by right|done].
  - intros name e [Hin|Hin]%elem_of_app.
    + destruct (Herrors _ _ Hin) as (-> & ?). exists c. split; [by left|done].
    + destruct (Herrors' _ _ Hin) as (company & ? & ? & ?). exists company.
      split; [by right|done].
  - rewrite Hskipped, Hskipped'. case_decide.
    + by rewrite filter_cons_True.
    + by rewrite filter_cons_False.
Qed.

(** X9: in what [get_relevant_jobs] returns, every relevant job belongs
    to a configured company that passes the limit, is active and has a
    jobs page, and its title is relevant for that company; the companies to
    verify and the names on the errors are such companies too; and the
    skipped companies are the names of the inactive companies that pass
    the limit, in the order of the configuration. *)
Theorem scraped_results_origin (config : Config D) (limit additional : option string)
    (d d' : D) (scraped : Scraped D) :
  get_relevant_jobs config limit additional d = (inr scraped, d') →
  (∀ company job,
      (company, job) ∈ relevant_jobs scraped →
      company ∈ companies config ∧ scrapable limit company
      ∧ title_is_relevant company (JobPosting.title job)
                          (all_search_terms config additional) = true)
  ∧ (∀ company, company ∈ verify_no_jobs scraped →
                company ∈ companies config ∧ scrapable limit company)
  ∧ (∀ company_name e,
        (company_name, e) ∈ errors scraped →
        ∃ company, company ∈ companies config ∧ scrapable limit company
                   ∧ Company.name company = company_name)
  ∧ skipped_companies scraped
    = Company.name <$> filter (λ c, limited_out limit c = false ∧ Company.active c = false)
                              (companies config).
Proof.
  unfold get_relevant_jobs, mbind, run_bind.
  destruct (scrape_companies _ _ _ _ d) as [[e|result] d1] eqn:Hloop; [done|].
  destruct (driver_close d1) as [[e|[]] d2]; [done|].
  intros [= <- <-]. by eapply scrape_companies_origin.
Qed.

(** X10: a company that passes the limit and is active but has no jobs
    page stops the run at the assertion: [get_relevant_jobs] raises an
    [AssertionError] with the driver as the companies before it left it,
    still open, and what those companies yielded is not returned. *)
Theorem missing_jobs_page_aborts_run (config : Config D) (limit additional : option string)
    (pre post : list (Company.t D)) (company : Company.t D) (before : Scraped D) (d d1 : D) :
  companies config = pre ++ company :: post →
  scrape_companies limit (all_search_terms config additional) pre no_scraped d
    = (inr before, d1) →
  limited_out limit company = false →
  Company.active company = true →
  Str.truthy (Company.jobs_page company) = None →
  get_relevant_jobs config limit additional d
    = (inl (PyExc "AssertionError" EmptyString), d1)
  ∧ ∀ existing,
      get_new_relevant_jobs config existing limit additional d
      = (inl (PyExc "AssertionError" EmptyString), d1).
Proof.
  intros Hcs Hpre Hlimit Hactive Hpage.
  assert (get_relevant_jobs config limit additional d
          = (inl (PyExc "AssertionError" EmptyString), d1)) as Hrun.
  { unfold get_relevant_jobs, mbind, run_bind.
    by rewrite Hcs, scrape_companies_app, Hpre, missing_jobs_page_raises. }
  split; [done|]. intros existing. by apply get_new_relevant_jobs_raises.
Qed.

(** X11: the additional search term only adds matches, and only for the
    companies without search terms of their own: with it a title is
    relevant exactly when it is relevant without it or, the company having
    no terms of its own, the additional term is not empty and occurs in the
    title up to case. *)
Theorem additional_term_adds_matches (config : Config D) (additional : option string)
    (company : Company.t D) (title : string) :
  title_is_relevant company title (all_search_terms config additional) = true
  ↔ title_is_relevant company title (search_terms config) = true
    ∨ ((Company.relevant_search_terms company = None
        ∨ Company.relevant_search_terms company = Some [])
       ∧ ∃ term, additional = Some term ∧ term ≠ EmptyString ∧ Str.occurs_ci term title).
Proof.
  unfold title_is_relevant, all_search_terms, Str.truthy.
  assert (∀ term : string, ∀ terms,
    existsb (λ t, Str.contains (Str.lower t) (Str.lower title)) (terms ++ [term]) = true
    ↔ existsb (λ t, Str.contains (Str.lower t) (Str.lower title)) terms = true
      ∨ Str.occurs_ci term title) as Happ.
  { intros term terms. rewrite existsb_app, orb_true_iff. simpl.
    by rewrite orb_false_r, contains_lower_iff. }
  destruct (Company.relevant_search_terms company) as [[|t ts]|];
    destruct additional as [term|]; try case_decide; rewrite ?Happ; split;
    try (intros [?|?]; [by left|right; split; [auto|by exists term]]);
    try (intros [?|([?|?] & term' & ? & ? & ?)]; simplify_eq; tauto);
    try tauto.
Qed.

End scrape_loop.

Lemma scraped_results_origin_witness :
  skipped_companies Fixtures.acme_scraped = [].
Proof.
  assert (get_relevant_jobs Fixtures.acme_only None None Fixtures.web
          = (inr Fixtures.acme_scraped, Fixtures.acme_done)) as Hscrape by reflexivity.
  destruct (scraped_results_origin Fixtures.acme_only None None Fixtures.web
              Fixtures.acme_done Fixtures.acme_scraped Hscrape) as (_ & _ & _ & Hskipped).
  by rewrite Hskipped.
Defined.

Lemma missing_jobs_page_aborts_run_witness :
  get_relevant_jobs Fixtures.broken_config None None Fixtures.web
  = (inl (PyExc "AssertionError" EmptyString), Fixtures.on_acme).
Proof.
  assert (scrape_companies None (all_search_terms Fixtures.broken_config None)
                           [Fixtures.acme] no_scraped Fixtures.web
          = (inr Fixtures.acme_scraped, Fixtures.on_acme)) as Hpre by reflexivity.
  apply (missing_jobs_page_aborts_run Fixtures.broken_config None None
           [Fixtures.acme] [Fixtures.lab] Fixtures.pageless Fixtures.acme_scraped
           Fixtures.web Fixtures.on_acme eq_refl Hpre eq_refl eq_refl eq_refl).
Defined.

(** ** The message about new jobs *)

Section message.
Context {D : Type}.

Lemma string_app_nil_r (s : string) : s +:+ EmptyString = s.
Proof. induction s as [|c s IH]; [done|]. rewrite string_app_cons. by f_equal. Qed.

Lemma job_lines_foldl (message : string) (jobs : list JobPosting.t) :
  foldl (λ message job,
           message +:+ Str.tab +:+ " "
             +:+ Str.replace_char (ascii_of_nat 10) " "%char (JobPosting.title job)
             +:+ " " +:+ default EmptyString (Str.truthy (JobPosting.link job)) +:+ Str.nl)
        message jobs
  = message +:+ foldr (λ job rest, job_line job +:+ rest) EmptyString jobs.
Proof.
  revert message. induction jobs as [|job jobs IH]; intros message; simpl.
  { by rewrite string_app_nil_r. }
  rewrite IH. fold (job_line job). by rewrite string_app_assoc.
Qed.

Lemma company_blocks_foldl (message : string) (new : list (string * NewJobsInfo D)) :
  foldl (λ message '(company_name, info),
           foldl (λ message job,
                    message +:+ Str.tab +:+ " "
                      +:+ Str.replace_char (ascii_of_nat 10) " "%char (JobPosting.title job)
                      +:+ " " +:+ default EmptyString (Str.truthy (JobPosting.link job))
                      +:+ Str.nl)
                 (message +:+ Str.nl +:+ company_name +:+ " ("
                    +:+ default "None" (Company.jobs_page (info_company info))
                    +:+ "):" +:+ Str.nl)
                 (info_jobs info))
        message new
  = message +:+ foldr (λ entry rest, company_block entry +:+ rest) EmptyString new.
Proof.
  revert message. induction new as [|[company_name info] new IH]; intros message; simpl.
  { by rewrite string_app_nil_r. }
  rewrite IH, job_lines_foldl. unfold company_block. simpl.
  by rewrite !string_app_assoc.
Qed.

(** X12: the message about new jobs is, in the order of
    [new_relevant_jobs], one block per company made of a blank line, the
    line of the company and a line per job in the order of its list; so
    the message of two maps put end to end is the two messages put end to
    end, and the message of the empty map is empty. *)
Theorem format_new_jobs_message_blocks (new new' : list (string * NewJobsInfo D)) :
  format_new_jobs_message new
  = foldr (λ entry rest, company_block entry +:+ rest) EmptyString new
  ∧ format_new_jobs_message (new ++ new')
    = format_new_jobs_message new +:+ format_new_jobs_message new'
  ∧ format_new_jobs_message ([] : list (string * NewJobsInfo D)) = EmptyString.
Proof.
  assert (∀ l : list (string * NewJobsInfo D),
    format_new_jobs_message l
    = foldr (λ entry rest, company_block entry +:+ rest) EmptyString l) as Hblocks.
  { intros l. unfold format_new_jobs_message. by rewrite company_blocks_foldl. }
  split; [apply Hblocks|]. split; [|done].
  rewrite !Hblocks. induction new as [|entry new IH]; [done|].
  simpl. by rewrite IH, string_app_assoc.
Qed.

Lemma contains_app_r (needle pre hay : string) :
  Str.contains needle hay = true → Str.contains needle (pre +:+ hay) = true.
Proof.
  rewrite !contains_spec. intros (a & b & ->). exists (pre +:+ a), b.
  by rewrite string_app_assoc.
Qed.

Lemma contains_app_l (needle hay post : string) :
  Str.contains needle hay = true → Str.contains needle (hay +:+ post) = true.
Proof.
  rewrite !contains_spec. intros (a & b & ->). exists a, (b +:+ post).
  by rewrite !string_app_assoc.
Qed.

Lemma contains_refl_app (pre needle post : string) :
  Str.contains needle (pre +:+ needle +:+ post) = true.
Proof. apply contains_spec. by exists pre, post. Qed.

Lemma contains_refl (s : string) : Str.contains s s = true.
Proof. apply contains_spec. exists EmptyString, EmptyString. by rewrite string_app_nil_r. Qed.

Lemma replace_char_no_occurrence (a b : ascii) (s : string) :
  a ≠ b → Str.contains (String a EmptyString) (Str.replace_char a b s) = false.
Proof.
  intros Hab. apply not_true_is_false. rewrite contains_spec.
  intros (pre & post & Heq). revert pre Heq.
  induction s as [|c s IH]; intros pre Heq; simpl in Heq.
  - by destruct pre.
  - destruct pre as [|x pre].
    + rewrite string_app_nil_l, string_app_cons in Heq. injection Heq as Hc _.
      destruct (Ascii.eqb_spec c a); congruence.
    + rewrite string_app_cons in Heq. injection Heq as _ Heq. by eapply IH.
Qed.

(** X13: every company and every job of [new_relevant_jobs] shows in the
    message: the company by the line with its name and jobs page, the job
    by its line, which holds the title with each newline turned into a
    space and so never breaks in the middle of a title. *)
Theorem format_new_jobs_message_complete (new : list (string * NewJobsInfo D))
    (company_name : string) (info : NewJobsInfo D) :
  (company_name, info) ∈ new →
  Str.contains (Str.nl +:+ company_name +:+ " ("
                  +:+ default "None" (Company.jobs_page (info_company info))
                  +:+ "):" +:+ Str.nl)
               (format_new_jobs_message new) = true
  ∧ ∀ job, job ∈ info_jobs info →
           Str.contains (job_line job) (format_new_jobs_message new) = true
           ∧ Str.contains Str.nl
               (Str.replace_char (ascii_of_nat 10) " "%char (JobPosting.title job)) = false.
Proof.
  intros Hin. destruct (format_new_jobs_message_blocks new []) as (-> & _ & _).
  assert (Str.contains (company_block (company_name, info))
            (foldr (λ entry rest, company_block entry +:+ rest) EmptyString new) = true)
    as Hblock.
  { induction new as [|entry new IH]; [by apply elem_of_nil in Hin|].
    apply elem_of_cons in Hin as [<-|Hin]; cbn [foldr].
    - apply (contains_refl_app EmptyString).
    - apply contains_app_r. by apply IH. }
  apply contains_spec in Hblock as (pre & post & ->). split.
  - unfold company_block. cbn [fst snd]. rewrite string_app_assoc.
    apply contains_app_r, contains_app_l, contains_refl.
  - intros job Hjob. split; [|by apply replace_char_no_occurrence].
    apply contains_app_r, contains_app_l. unfold company_block. cbn [fst snd].
    apply contains_app_r.
    induction (info_jobs info) as [|job' jobs IH]; [by apply elem_of_nil in Hjob|].
    apply elem_of_cons in Hjob as [<-|Hjob]; cbn [foldr].
    + apply (contains_refl_app EmptyString).
    + apply contains_app_r. by apply IH.
Qed.

End message.

Lemma format_new_jobs_message_complete_witness :
  Str.contains (job_line Fixtures.scientist)
               (format_new_jobs_message Fixtures.world_new_jobs) = true.
Proof.
  apply (format_new_jobs_message_complete Fixtures.world_new_jobs "Lab"
           (mkInfo Fixtures.lab [Fixtures.scientist])); by left.
Defined.

(** ** What the handler writes and answers *)

Section handler_effects.
Context {D : Type} `{WebDriver D} `{Str.Lowering}.
Variable splitext : string → string * string.

Implicit Types (w : World D) (event : Event) (config : Config D).

Local Ltac run_steps :=
  unfold download_file, s3_get, s3_put, sns_publish, loads_jobs, loads_errors, on_driver,
    raise, mbind, run_bind, mret, run_ret in *.

(** The notification step: the objects afterwards and the message handed
    back. *)
Lemma notify_new_jobs_effect event (new : list (string * NewJobsInfo D))
    (existing' : gmap string (list string)) w return_message w2 :
  notify_new_jobs splitext event new existing' w = (inr return_message, w2) →
  s3 w2 = match new with
          | [] => s3 w
          | _ :: _ =>
              if ev_dont_write_existing event then s3 w
              else <[(bucket_name (aws_config event),
                      existing_jobs_key splitext event (clock w)) := JobsDoc existing']>
                     (s3 w)
          end
  ∧ return_message
    = mkReturnMessage (match new with
                       | [] => None
                       | _ :: _ => Some (format_new_jobs_message new)
                       end) None.
Proof.
  unfold notify_new_jobs. destruct new as [|entry new]; [by intros [= <- <-]|].
  run_steps. by destruct (ev_dont_write_existing event); intros [= <- <-].
Qed.

(** The error step: only the errors object can change, and the message
    gains the errors of the run. *)
Lemma track_errors_effect event (errors : list (string * Exception)) return_message w
    return_message' w3 :
  track_errors event errors return_message w = (inr return_message', w3) →
  (∀ object, object ≠ (bucket_name (aws_config event), errors_json (aws_config event)) →
             s3 w3 !! object = s3 w !! object)
  ∧ return_message'
    = mkReturnMessage (rm_new_jobs return_message)
                      (match errors with
                       | [] => rm_errors return_message
                       | _ :: _ => Some (errors_message errors)
                       end).
Proof.
  unfold track_errors. run_steps. intros Hrun.
  destruct return_message as [jobs_message errs_message].
  repeat case_match; simplify_eq; simpl;
    (split; [intros object Hobject; by rewrite ?lookup_insert_ne|done]).
Qed.

(** A returning run, step by step: the objects other than the errors
    object, and the response. *)
Lemma lambda_handler_effects config event (local : bool) w w1
    (new : list (string * NewJobsInfo D)) (existing' : gmap string (list string))
    (verify : list (Company.t D)) (errors : list (string * Exception))
    (response : Response) w' :
  handler_scrape config event w = (inr (new, existing', verify, errors), w1) →
  lambda_handler splitext config event local w = (inr response, w') →
  (∀ object,
      object ≠ (bucket_name (aws_config event), errors_json (aws_config event)) →
      s3 w' !! object
      = match new with
        | [] => s3 w
        | _ :: _ =>
            if ev_dont_write_existing event then s3 w
            else <[(bucket_name (aws_config event),
                    existing_jobs_key splitext event (clock w)) := JobsDoc existing']>
                   (s3 w)
        end !! object)
  ∧ response
    = mkResponse 200
        (mkReturnMessage
           (match new with [] => None | _ :: _ => Some (format_new_jobs_message new) end)
           (match errors with [] => None | _ :: _ => Some (errors_message errors) end)).
Proof.
  intros Hscrape.
  destruct (handler_scrape_frame _ _ _ _ _ Hscrape) as (Hs3 & _ & Hclock).
  unfold lambda_handler, mbind, run_bind. rewrite Hscrape. cbv beta iota.
  destruct (notify_new_jobs splitext event new existing' w1)
    as [[e|message] w2] eqn:Hnotify; [done|].
  destruct (track_errors event errors message w2) as [[e|message'] w3] eqn:Htrack; [done|].
  intros [= <- <-].
  apply notify_new_jobs_effect in Hnotify as [Hs32 ->].
  apply track_errors_effect in Htrack as [Hs33 ->]. simpl.
  split; [|done]. intros object Hobject. by rewrite (Hs33 _ Hobject), Hs32, Hs3, Hclock.
Qed.

(** X14: a returning run of the handler leaves every object other than
    the errors object as it was, except that, when there are new jobs and
    [dont_write_existing] is off, the object of the seen IDs then holds the
    map that [get_new_relevant_jobs] returned. *)
Theorem handler_writes_seen_ids config event (local : bool) w w1
    (new : list (string * NewJobsInfo D)) (existing' : gmap string (list string))
    (verify : list (Company.t D)) (errors : list (string * Exception))
    (response : Response) w' :
  handler_scrape config event w = (inr (new, existing', verify, errors), w1) →
  lambda_handler splitext config event local w = (inr response, w') →
  existing_jobs_key splitext event (clock w) ≠ errors_json (aws_config event) →
  (new ≠ [] → ev_dont_write_existing event = false →
   s3 w' !! (bucket_name (aws_config event), existing_jobs_key splitext event (clock w))
   = Some (JobsDoc existing'))
  ∧ (new = [] ∨ ev_dont_write_existing event = true →
     ∀ object, object ≠ (bucket_name (aws_config event), errors_json (aws_config event)) →
               s3 w' !! object = s3 w !! object)
  ∧ (∀ object,
        object ≠ (bucket_name (aws_config event), errors_json (aws_config event)) →
        object ≠ (bucket_name (aws_config event),
                  existing_jobs_key splitext event (clock w)) →
        s3 w' !! object = s3 w !! object).
Proof.
  intros Hscrape Hrun Hkeys.
  destruct (lambda_handler_effects _ _ _ _ _ _ _ _ _ _ _ Hscrape Hrun) as [Hs3 _].
  split; [|split].
  - intros Hnew Hwrite. rewrite Hs3 by congruence.
    destruct new; [done|]. rewrite Hwrite. apply lookup_insert_eq.
  - intros Hnone object Hobject. rewrite (Hs3 _ Hobject).
    destruct new; [done|]. by destruct Hnone as [?| ->].
  - intros object Hobject Hother. rewrite (Hs3 _ Hobject).
    destruct new; [done|]. destruct (ev_dont_write_existing event); [done|].
    by rewrite lookup_insert_ne.
Qed.

(** X15: the response of a returning run has status code 200; its body
    has the message about new jobs exactly when there are new jobs, and the
    message listing all errors exactly when the run had errors. *)
Theorem handler_response config event (local : bool) w w1
    (new : list (string * NewJobsInfo D)) (existing' : gmap string (list string))
    (verify : list (Company.t D)) (errors : list (string * Exception))
    (response : Response) w' :
  handler_scrape config event w = (inr (new, existing', verify, errors), w1) →
  lambda_handler splitext config event local w = (inr response, w') →
  statusCode response = 200%Z
  ∧ rm_new_jobs (body response)
    = (if bool_decide (new = []) then None else Some (format_new_jobs_message new))
  ∧ rm_errors (body response)
    = (if bool_decide (errors = []) then None else Some (errors_message errors)).
Proof.
  intros Hscrape Hrun.
  destruct (lambda_handler_effects _ _ _ _ _ _ _ _ _ _ _ Hscrape Hrun) as [_ ->]. simpl.
  split; [done|]. split; [by destruct new|by destruct errors].
Qed.

(** X16: when the configuration file, the scrapers file or the object of
    the seen IDs is missing from the bucket, the handler raises what the
    read raises and nothing else happens: no page is visited, nothing is
    published and no object is written. *)
Theorem handler_missing_object config event (local : bool) w :
  s3 w !! (bucket_name (aws_config event), config_file (aws_config event)) = None
  ∨ s3 w !! (bucket_name (aws_config event), scrapers_file (aws_config event)) = None
  ∨ s3 w !! (bucket_name (aws_config event), existing_jobs_json (aws_config event)) = None →
  lambda_handler splitext config event local w
  = (inl (PyExc "NoSuchKey" "The specified key does not exist."), w).
Proof.
  intros Hmissing. unfold lambda_handler, handler_scrape. run_steps.
  destruct (s3 w !! (bucket_name (aws_config event), config_file (aws_config event)));
    [|done].
  destruct (s3 w !! (bucket_name (aws_config event), scrapers_file (aws_config event)));
    [|done].
  destruct (s3 w !! (bucket_name (aws_config event), existing_jobs_json (aws_config event)));
    [|done].
  by destruct Hmissing as [?|[?|?]].
Qed.

Lemma string_length_app (a b : string) :
  String.length (a +:+ b) = String.length a + String.length b.
Proof. induction a as [|c a IH]; [done|]. rewrite string_app_cons. simpl. by rewrite IH. Qed.

(** With [dont_replace_existing] the seen IDs go to a key of their own. *)
Lemma existing_jobs_key_fresh event (clock : string) :
  (∀ p path extension, splitext p = (path, extension) → path +:+ extension = p) →
  ev_dont_replace_existing event = true →
  existing_jobs_key splitext event clock ≠ existing_jobs_json (aws_config event).
Proof.
  intros Hsplit Hflag. unfold existing_jobs_key. rewrite Hflag.
  destruct (splitext (existing_jobs_json (aws_config event))) as [path extension] eqn:Hparts.
  rewrite <- (Hsplit _ _ _ Hparts). intros Heq%(inj (String.app path)).
  apply (f_equal String.length) in Heq. rewrite !string_length_app in Heq. simpl in Heq. lia.
Qed.

(** X17: with [dont_replace_existing], and [os.path.splitext] splitting a
    path into two parts that make up the path, the seen IDs are written
    under a key that differs from [existing_jobs_json], and a returning run
    leaves the object at [existing_jobs_json] as it was. *)
Theorem dont_replace_keeps_existing config event (local : bool) w w1
    (new : list (string * NewJobsInfo D)) (existing' : gmap string (list string))
    (verify : list (Company.t D)) (errors : list (string * Exception))
    (response : Response) w' :
  (∀ p path extension, splitext p = (path, extension) → path +:+ extension = p) →
  ev_dont_replace_existing event = true →
  handler_scrape config event w = (inr (new, existing', verify, errors), w1) →
  lambda_handler splitext config event local w = (inr response, w') →
  existing_jobs_json (aws_config event) ≠ errors_json (aws_config event) →
  existing_jobs_key splitext event (clock w) ≠ existing_jobs_json (aws_config event)
  ∧ s3 w' !! (bucket_name (aws_config event), existing_jobs_json (aws_config event))
    = s3 w !! (bucket_name (aws_config event), existing_jobs_json (aws_config event)).
Proof.
  intros Hsplit Hflag Hscrape Hrun Hkeys.
  pose proof (existing_jobs_key_fresh event (clock w) Hsplit Hflag) as Hfresh.
  split; [done|].
  destruct (lambda_handler_effects _ _ _ _ _ _ _ _ _ _ _ Hscrape Hrun) as [Hs3 _].
  rewrite Hs3 by congruence.
  destruct new; [done|]. destruct (ev_dont_write_existing event); [done|].
  rewrite lookup_insert_ne; [done|congruence].
Qed.

(** X18: an error that lasts is notified once.  After a returning run,
    a later run on the objects it left, whose errors are all for companies
    that had an error in the first run, returns without publishing
    'New scrape errors', and stores its own errors. *)
Theorem lasting_error_not_notified_again config config2 event (local : bool) w w1 w2 w21
    (new new2 : list (string * NewJobsInfo D)) (existing' existing2 : gmap string (list string))
    (verify verify2 : list (Company.t D)) (errors errors2 : list (string * Exception))
    (old : list ErrorRecord) (response : Response) w' :
  handler_scrape config event w = (inr (new, existing', verify, errors), w1) →
  s3 w !! (bucket_name (aws_config event), errors_json (aws_config event))
    = Some (ErrorsDoc old) →
  existing_jobs_key splitext event (clock w) ≠ errors_json (aws_config event) →
  lambda_handler splitext config event local w = (inr response, w') →
  s3 w2 = s3 w' →
  handler_scrape config2 event w2 = (inr (new2, existing2, verify2, errors2), w21) →
  existing_jobs_key splitext event (clock w2) ≠ errors_json (aws_config event) →
  (∀ name e, (name, e) ∈ errors2 → ∃ e', (name, e') ∈ errors) →
  ∃ response2 w2',
    lambda_handler splitext config2 event local w2 = (inr response2, w2')
    ∧ ¬ published "New scrape errors" w2 w2'
    ∧ s3 w2' !! (bucket_name (aws_config event), errors_json (aws_config event))
      = Some (ErrorsDoc (error_record <$> errors2)).
Proof.
  intros Hscrape Hold Hkeys Hrun Hs3 Hscrape2 Hkeys2 Hsame.
  destruct (lambda_handler_run splitext config event local w w1 new existing' verify errors
              old Hscrape Hold Hkeys) as (response0 & w0 & Hrun0 & _ & Hstored).
  rewrite Hrun in Hrun0. injection Hrun0 as <- <-.
  destruct (lambda_handler_run splitext config2 event local w2 w21 new2 existing2 verify2
              errors2 (error_record <$> errors)) as (response2 & w2' & Hrun2 & Hsns & Hstored2);
    [done|by rewrite Hs3|done|].
  exists response2, w2'. split; [done|]. split; [|done].
  assert (existsb (λ entry : string * Exception,
                     bool_decide (entry.1 ∉ company_name <$> (error_record <$> errors)))
                  errors2 = false) as Hnone.
  { apply not_true_is_false. intros ([name e] & Hin & Hnew)%existsb_exists.
    apply bool_decide_eq_true in Hnew. apply Hnew.
    destruct (Hsame name e) as [e' Hin']; [by apply list_elem_of_In|].
    apply list_elem_of_fmap. exists (error_record (name, e')).
    split; [done|]. apply list_elem_of_fmap. by exists (name, e'). }
  rewrite Hnone, app_nil_r in Hsns.
  rewrite (published_app _ w2 w2' _ Hsns).
  intros (p & Hp & Hsubject). destruct new2; [by apply elem_of_nil in Hp|].
  by apply list_elem_of_singleton in Hp as ->.
Qed.

End handler_effects.

(** ** Two runs of the handler in a row *)

Section two_runs.
Context {D : Type} `{WebDriver D} `{Str.Lowering}.
Variable splitext : string → string * string.

Implicit Types (w : World D) (event : Event) (config : Config D).

(** The grouping loop adds nothing exactly when every ID is already seen. *)
Lemma new_jobs_foldl_nil_iff (scraped : list (Company.t D * JobPosting.t))
    (ex : gmap string (gset string)) :
  (foldl group_job ([], ex) scraped).1 = []
  ↔ ∀ company job, (company, job) ∈ scraped →
                   JobPosting.id job ∈ default ∅ (ex !! Company.name company).
Proof.
  split.
  - intros Hnil company job Hin.
    pose proof (reported_jobs_foldl scraped [] ex (Company.name company)) as Hreported.
    rewrite Hnil in Hreported. symmetry in Hreported.
    by apply fresh_jobs_nil_iff with (company := company) (job := job) in Hreported.
  - intros Hseen.
    pose proof (new_jobs_foldl_entries scraped scraped [] ex (λ _ Hin, Hin) (Forall_nil_2 _))
      as Hentries.
    destruct (foldl group_job ([], ex) scraped).1 as [|[key info] new] eqn:Hnew; [done|].
    apply Forall_cons in Hentries as [(_ & Hjobs & _) _].
    pose proof (reported_jobs_foldl scraped [] ex key) as Hreported.
    rewrite Hnew in Hreported. unfold reported_jobs at 1 in Hreported. simpl in Hreported.
    rewrite decide_True in Hreported by done. simpl in Hreported.
    destruct Hjobs. simpl. rewrite Hreported. apply fresh_jobs_nil_iff.
    intros company job Hin <-. by apply Hseen.
Qed.

(** The scrape stage of the handler, from the objects of the bucket and
    the outcome of the scrape. *)
Lemma handler_scrape_run config event w (existing : gmap string (list string))
    (scraped : Scraped D) (d' : D) :
  is_Some (s3 w !! (bucket_name (aws_config event), config_file (aws_config event))) →
  is_Some (s3 w !! (bucket_name (aws_config event), scrapers_file (aws_config event))) →
  s3 w !! (bucket_name (aws_config event), existing_jobs_json (aws_config event))
    = Some (JobsDoc existing) →
  get_relevant_jobs config (ev_limit_company event) (ev_temp_term event) (chrome w)
    = (inr scraped, d') →
  handler_scrape config event w
  = (inr ((foldl group_job ([], list_to_set <$> existing) (relevant_jobs scraped)).1,
          sorted_ids <$> (foldl group_job ([], list_to_set <$> existing)
                                (relevant_jobs scraped)).2,
          verify_no_jobs scraped, errors scraped),
     mkWorld d' (s3 w) (sns w) (clock w)).
Proof.
  intros [? Hconfig] [? Hscrapers] Hjobs Hscrape.
  unfold handler_scrape, download_file, s3_get, loads_jobs, on_driver, mbind, run_bind,
    mret, run_ret.
  rewrite Hconfig, Hscrapers, Hjobs.
  by rewrite (get_new_relevant_jobs_returns _ _ _ _ _ _ _ Hscrape).
Qed.

(** X19: a posting is announced once.  With the flags [dont_write_existing]
    and [dont_replace_existing] off and the objects of the bucket in place,
    a run whose scrape returns does return, and a later run on the objects
    it left, whose scrape holds no company name and ID beyond those of the
    first one, returns without publishing 'New jobs'. *)
Theorem posting_announced_once config config2 event (local : bool) w
    (existing : gmap string (list string)) (old : list ErrorRecord)
    (scraped : Scraped D) (d' : D) :
  ev_dont_write_existing event = false →
  ev_dont_replace_existing event = false →
  is_Some (s3 w !! (bucket_name (aws_config event), config_file (aws_config event))) →
  is_Some (s3 w !! (bucket_name (aws_config event), scrapers_file (aws_config event))) →
  s3 w !! (bucket_name (aws_config event), existing_jobs_json (aws_config event))
    = Some (JobsDoc existing) →
  s3 w !! (bucket_name (aws_config event), errors_json (aws_config event))
    = Some (ErrorsDoc old) →
  get_relevant_jobs config (ev_limit_company event) (ev_temp_term event) (chrome w)
    = (inr scraped, d') →
  ∃ response w',
    lambda_handler splitext config event local w = (inr response, w')
    ∧ ∀ w2 (scraped2 : Scraped D) (d2' : D),
        s3 w2 = s3 w' →
        get_relevant_jobs config2 (ev_limit_company event) (ev_temp_term event) (chrome w2)
          = (inr scraped2, d2') →
        (∀ company job,
            (company, job) ∈ relevant_jobs scraped2 →
            ∃ company' job', (company', job') ∈ relevant_jobs scraped
                             ∧ Company.name company' = Company.name company
                             ∧ JobPosting.id job' = JobPosting.id job) →
        ∃ response2 w2',
          lambda_handler splitext config2 event local w2 = (inr response2, w2')
          ∧ ¬ published "New jobs" w2 w2'.
Proof.
  intros Hwrite Hreplace Hconfig Hscrapers Hjobs Herrors Hscrape.
  assert (∀ clock, existing_jobs_key splitext event clock
                   = existing_jobs_json (aws_config event)) as Hkey.
  { intros clock. unfold existing_jobs_key. by rewrite Hreplace. }
  assert (existing_jobs_json (aws_config event) ≠ errors_json (aws_config event)) as Hkeys.
  { intros Heq. rewrite Heq in Hjobs. congruence. }
  set (ex := (list_to_set <$> existing : gmap string (gset string))).
  set (new := (foldl group_job ([], ex) (relevant_jobs scraped)).1).
  set (ex1 := (foldl group_job ([], ex) (relevant_jobs scraped)).2).
  pose proof (handler_scrape_run config event w existing scraped d'
                Hconfig Hscrapers Hjobs Hscrape) as Hstage.
  fold ex new ex1 in Hstage.
  destruct (lambda_handler_run splitext config event local w _ _ _ _ _ old Hstage Herrors)
    as (response & w' & Hrun & _ & Hstored); [by rewrite Hkey|].
  exists response, w'. split; [done|].
  destruct (lambda_handler_effects splitext _ _ _ _ _ _ _ _ _ _ _ Hstage Hrun) as [Hs3 _].
  rewrite Hkey, Hwrite in Hs3.
  intros w2 scraped2 d2' Hw2 Hscrape2 Hsame.
  (* the objects the second run reads *)
  assert (∀ object, is_Some (s3 w !! object) → is_Some (s3 w2 !! object)) as Hkept.
  { intros object Hsome. rewrite Hw2.
    destruct (decide (object = (bucket_name (aws_config event), errors_json (aws_config event)))) as [->|Hne].
    { by rewrite Hstored. }
    rewrite (Hs3 _ Hne). destruct new; [done|].
    destruct (decide (object = (bucket_name (aws_config event), existing_jobs_json (aws_config event)))) as [->|Hne'].
    - by rewrite lookup_insert_eq.
    - by rewrite lookup_insert_ne. }
  set (stored := match new with [] => existing | _ :: _ => sorted_ids <$> ex1 end).
  assert (s3 w2 !! (bucket_name (aws_config event), existing_jobs_json (aws_config event)) = Some (JobsDoc stored))
    as Hjobs2.
  { rewrite Hw2, Hs3 by congruence. unfold stored.
    destruct new; [done|]. by rewrite lookup_insert_eq. }
  (* every ID of the second scrape is among the stored ones *)
  assert (∀ company job,
            (company, job) ∈ relevant_jobs scraped2 →
            JobPosting.id job
            ∈ default ∅ ((list_to_set <$> stored : gmap string (gset string))
                           !! Company.name company)) as Hseen.
  { intros company job Hin.
    destruct (Hsame _ _ Hin) as (company' & job' & Hin' & Hname & Hid).
    rewrite <- Hname, <- Hid. unfold stored. destruct new eqn:Hnew.
    - by apply (proj1 (new_jobs_foldl_nil_iff (relevant_jobs scraped) ex) Hnew).
    - rewrite <- map_fmap_compose, lookup_fmap.
      pose proof (seen_foldl_ids (relevant_jobs scraped) [] ex (Company.name company'))
        as Hids.
      fold ex1 in Hids.
      assert (job_id_in : JobPosting.id job' ∈ default ∅ (ex1 !! Company.name company')).
      { rewrite Hids. apply elem_of_union. right. apply elem_of_scraped_ids.
        by exists company', job'. }
      destruct (ex1 !! Company.name company') as [value|]; simpl in *; [|done].
      by rewrite list_to_set_sorted_ids. }
  pose proof (handler_scrape_run config2 event w2 stored scraped2 d2'
                (Hkept _ Hconfig) (Hkept _ Hscrapers) Hjobs2 Hscrape2) as Hstage2.
  rewrite (proj2 (new_jobs_foldl_nil_iff (relevant_jobs scraped2) _) Hseen) in Hstage2.
  destruct (lambda_handler_run splitext config2 event local w2 _ _ _ _ _
              (error_record <$> errors scraped) Hstage2)
    as (response2 & w2' & Hrun2 & Hsns & _); [by rewrite Hw2|by rewrite Hkey|].
  exists response2, w2'. split; [done|].
  rewrite (published_app _ w2 w2' _ Hsns). simpl.
  intros (p & Hp & Hsubject). destruct (existsb _ _); [|by apply elem_of_nil in Hp].
  by apply list_elem_of_singleton in Hp as ->.
Qed.

End two_runs.

(** ** The command line *)

Section command_line_properties.
Context {D : Type} `{WebDriver D} `{Str.Lowering}.
Variable splitext : string → string * string.

Implicit Types (m : Machine D) (args : Args) (config : Config D).

(** A run of the script whose file is in place and whose scrape returns. *)
Lemma jobscrape_main_run config args m (existing : gmap string (list string))
    (scraped : Scraped D) (d' : D) :
  m_files m !! args_existing_jobs_json args = Some (JobsDoc existing) →
  get_relevant_jobs config (args_limit_company args) (args_additional_search_term args)
                    (m_chrome m) = (inr scraped, d') →
  jobscrape_main splitext config args m
  = (inr (),
     mkMachine d'
       (match (foldl group_job ([], list_to_set <$> existing) (relevant_jobs scraped)).1 with
        | [] => m_files m
        | _ :: _ =>
            if args_dont_write_existing args then m_files m
            else <[output_filename splitext args (m_clock m)
                   := JobsDoc (sorted_ids <$> (foldl group_job ([], list_to_set <$> existing)
                                                     (relevant_jobs scraped)).2)]>
                   (m_files m)
        end)
       (m_clock m)).
Proof.
  intros Hfile Hscrape.
  unfold jobscrape_main, load_existing_jobs, on_chrome, dump_existing_jobs, mbind, run_bind,
    mret, run_ret.
  rewrite Hfile, (get_new_relevant_jobs_returns _ _ _ _ _ _ _ Hscrape).
  destruct (foldl group_job _ _).1; [done|].
  by destruct (args_dont_write_existing args).
Qed.

(** X20: when the file of seen IDs is in place and the scrape returns,
    the script returns; it writes the returned map of seen IDs to the
    output file when there are new jobs and [dont_write_existing] is off,
    and writes no file at all otherwise; no other file is ever touched. *)
Theorem script_writes_seen_ids config args m (existing : gmap string (list string))
    (scraped : Scraped D) (d' : D) :
  m_files m !! args_existing_jobs_json args = Some (JobsDoc existing) →
  get_relevant_jobs config (args_limit_company args) (args_additional_search_term args)
                    (m_chrome m) = (inr scraped, d') →
  ∃ new existing' m',
    get_new_relevant_jobs config existing (args_limit_company args)
                          (args_additional_search_term args) (m_chrome m)
    = (inr (new, existing', verify_no_jobs scraped, errors scraped), d')
    ∧ jobscrape_main splitext config args m = (inr (), m')
    ∧ (new ≠ [] → args_dont_write_existing args = false →
       m_files m' !! output_filename splitext args (m_clock m) = Some (JobsDoc existing'))
    ∧ (new = [] ∨ args_dont_write_existing args = true → m_files m' = m_files m)
    ∧ (∀ path, path ≠ output_filename splitext args (m_clock m) →
               m_files m' !! path = m_files m !! path).
Proof.
  intros Hfile Hscrape. eexists _, _, _.
  split; [by apply get_new_relevant_jobs_returns|].
  split; [by apply jobscrape_main_run|]. simpl.
  destruct (foldl group_job _ _).1 as [|entry new]; simpl.
  - split; [done|]. split; done.
  - destruct (args_dont_write_existing args); simpl.
    + split; [done|]. split; done.
    + split; [intros; apply lookup_insert_eq|]. split; [by intros [?|?]|].
      intros path Hpath. by rewrite lookup_insert_ne.
Qed.

(** X21: without the file of seen IDs the script stops at once with
    [FileNotFoundError]: no page is visited and no file is written. *)
Theorem script_missing_file config args m :
  m_files m !! args_existing_jobs_json args = None →
  jobscrape_main splitext config args m
  = (inl (PyExc "FileNotFoundError" "No such file or directory"), m).
Proof.
  intros Hfile. unfold jobscrape_main, load_existing_jobs, mbind, run_bind. by rewrite Hfile.
Qed.

Lemma output_filename_fresh args (clock : string) :
  (∀ p path extension, splitext p = (path, extension) → path +:+ extension = p) →
  args_dont_replace_existing args = true →
  output_filename splitext args clock ≠ args_existing_jobs_json args.
Proof.
  intros Hsplit Hflag. unfold output_filename. rewrite Hflag.
  destruct (splitext (args_existing_jobs_json args)) as [path extension] eqn:Hparts.
  rewrite <- (Hsplit _ _ _ Hparts). intros Heq%(inj (String.app path)).
  apply (f_equal String.length) in Heq. rewrite !string_length_app in Heq. simpl in Heq. lia.
Qed.

(** X22: with [--dont_replace_existing], and [os.path.splitext] splitting
    a path into two parts that make up the path, the script never
    overwrites the file it read the seen IDs from. *)
Theorem script_dont_replace_keeps_file config args m (existing : gmap string (list string))
    (scraped : Scraped D) (d' : D) :
  (∀ p path extension, splitext p = (path, extension) → path +:+ extension = p) →
  args_dont_replace_existing args = true →
  m_files m !! args_existing_jobs_json args = Some (JobsDoc existing) →
  get_relevant_jobs config (args_limit_company args) (args_additional_search_term args)
                    (m_chrome m) = (inr scraped, d') →
  ∃ m',
    jobscrape_main splitext config args m = (inr (), m')
    ∧ m_files m' !! args_existing_jobs_json args = Some (JobsDoc existing).
Proof.
  intros Hsplit Hflag Hfile Hscrape. eexists. split; [by apply jobscrape_main_run|]. simpl.
  pose proof (output_filename_fresh args (m_clock m) Hsplit Hflag) as Hfresh.
  destruct (foldl group_job _ _).1; [done|].
  destruct (args_dont_write_existing args); [done|]. by rewrite lookup_insert_ne.
Qed.

(** X23: run twice in a row with the default flags, the script leaves
    the file as the first run wrote it, as long as the second scrape holds
    no company name and ID beyond those of the first. *)
Theorem script_second_run_writes_nothing config config2 args m
    (existing : gmap string (list string)) (scraped : Scraped D) (d' : D) :
  args_dont_write_existing args = false →
  args_dont_replace_existing args = false →
  m_files m !! args_existing_jobs_json args = Some (JobsDoc existing) →
  get_relevant_jobs config (args_limit_company args) (args_additional_search_term args)
                    (m_chrome m) = (inr scraped, d') →
  ∃ m',
    jobscrape_main splitext config args m = (inr (), m')
    ∧ ∀ m2 (scraped2 : Scraped D) (d2' : D),
        m_files m2 = m_files m' →
        get_relevant_jobs config2 (args_limit_company args)
                          (args_additional_search_term args) (m_chrome m2)
          = (inr scraped2, d2') →
        (∀ company job,
            (company, job) ∈ relevant_jobs scraped2 →
            ∃ company' job', (company', job') ∈ relevant_jobs scraped
                             ∧ Company.name company' = Company.name company
                             ∧ JobPosting.id job' = JobPosting.id job) →
        ∃ m2',
          jobscrape_main splitext config2 args m2 = (inr (), m2')
          ∧ m_files m2' = m_files m2.
Proof.
  intros Hwrite Hreplace Hfile Hscrape. eexists. split; [by apply jobscrape_main_run|].
  simpl. rewrite Hwrite. unfold output_filename. rewrite Hreplace.
  set (ex := (list_to_set <$> existing : gmap string (gset string))).
  set (new := (foldl group_job ([], ex) (relevant_jobs scraped)).1).
  set (ex1 := (foldl group_job ([], ex) (relevant_jobs scraped)).2).
  intros m2 scraped2 d2' Hm2 Hscrape2 Hsame.
  set (stored := match new with [] => existing | _ :: _ => sorted_ids <$> ex1 end).
  assert (m_files m2 !! args_existing_jobs_json args = Some (JobsDoc stored)) as Hfile2.
  { rewrite Hm2. unfold stored. destruct new; [done|]. by rewrite lookup_insert_eq. }
  assert (∀ company job,
            (company, job) ∈ relevant_jobs scraped2 →
            JobPosting.id job
            ∈ default ∅ ((list_to_set <$> stored : gmap string (gset string))
                           !! Company.name company)) as Hseen.
  { intros company job Hin.
    destruct (Hsame _ _ Hin) as (company' & job' & Hin' & Hname & Hid).
    rewrite <- Hname, <- Hid. unfold stored. destruct new eqn:Hnew.
    - by apply (proj1 (new_jobs_foldl_nil_iff (relevant_jobs scraped) ex) Hnew).
    - rewrite <- map_fmap_compose, lookup_fmap.
      pose proof (seen_foldl_ids (relevant_jobs scraped) [] ex (Company.name company'))
        as Hids.
      fold ex1 in Hids.
      assert (job_id_in : JobPosting.id job' ∈ default ∅ (ex1 !! Company.name company')).
      { rewrite Hids. apply elem_of_union. right. apply elem_of_scraped_ids.
        by exists company', job'. }
      destruct (ex1 !! Company.name company') as [value|]; simpl in *; [|done].
      by rewrite list_to_set_sorted_ids. }
  eexists. split; [by apply jobscrape_main_run|]. simpl.
  by rewrite (proj2 (new_jobs_foldl_nil_iff (relevant_jobs scraped2) _) Hseen).
Qed.

End command_line_properties.

(** ** Runs on the stub driver *)

Lemma handler_writes_seen_ids_witness :
  s3 Fixtures.world_after !! ("job-scrape", "existing_jobs.json")
  = Some (JobsDoc Fixtures.world_seen).
Proof.
  assert (handler_scrape Fixtures.config Fixtures.event Fixtures.world
          = (inr (Fixtures.world_new_jobs, Fixtures.world_seen, [],
                  [("Ghost", Fixtures.ghost_error)]),
             Fixtures.world_scraped)) as Hscrape by (vm_compute; reflexivity).
  assert (lambda_handler StubDriver.splitext Fixtures.config Fixtures.event false
                         Fixtures.world
          = (inr Fixtures.world_response, Fixtures.world_after)) as Hrun
    by (vm_compute; reflexivity).
  apply (handler_writes_seen_ids StubDriver.splitext _ _ _ _ _ _ _ _ _ _ _ Hscrape Hrun);
    first [discriminate | reflexivity].
Defined.

Lemma handler_response_witness :
  statusCode Fixtures.world_response = 200%Z.
Proof.
  assert (handler_scrape Fixtures.config Fixtures.event Fixtures.world
          = (inr (Fixtures.world_new_jobs, Fixtures.world_seen, [],
                  [("Ghost", Fixtures.ghost_error)]),
             Fixtures.world_scraped)) as Hscrape by (vm_compute; reflexivity).
  assert (lambda_handler StubDriver.splitext Fixtures.config Fixtures.event false
                         Fixtures.world
          = (inr Fixtures.world_response, Fixtures.world_after)) as Hrun
    by (vm_compute; reflexivity).
  apply (handler_response StubDriver.splitext _ _ _ _ _ _ _ _ _ _ _ Hscrape Hrun).
Defined.

Lemma handler_missing_object_witness :
  lambda_handler StubDriver.splitext Fixtures.config Fixtures.event false
                 Fixtures.unconfigured_world
  = (inl (PyExc "NoSuchKey" "The specified key does not exist."),
     Fixtures.unconfigured_world).
Proof.
  apply (handler_missing_object StubDriver.splitext). left. reflexivity.
Defined.

Lemma dont_replace_keeps_existing_witness :
  ∃ response w',
    lambda_handler StubDriver.splitext Fixtures.config Fixtures.snapshot_event false
                   Fixtures.world = (inr response, w')
    ∧ s3 w' !! ("job-scrape", "existing_jobs.json") = Some (JobsDoc ∅).
Proof.
  assert (handler_scrape Fixtures.config Fixtures.snapshot_event Fixtures.world
          = (inr (Fixtures.world_new_jobs, Fixtures.world_seen, [],
                  [("Ghost", Fixtures.ghost_error)]),
             Fixtures.world_scraped)) as Hscrape by (vm_compute; reflexivity).
  destruct (lambda_handler StubDriver.splitext Fixtures.config Fixtures.snapshot_event false
                           Fixtures.world) as [[e|response] w'] eqn:Hrun.
  { vm_compute in Hrun. discriminate. }
  exists response, w'. split; [done|].
  assert (∀ p path extension,
            StubDriver.splitext p = (path, extension) → path +:+ extension = p) as Hsplit.
  { intros p path extension [= <- <-]. apply string_app_nil_r. }
  assert (ev_dont_replace_existing Fixtures.snapshot_event = true) as Hflag by reflexivity.
  destruct (dont_replace_keeps_existing StubDriver.splitext _ _ _ _ _ _ _ _ _ _ _
              Hsplit Hflag Hscrape Hrun) as [_ Hkept]; [discriminate|].
  etrans; [exact Hkept|reflexivity].
Defined.

Lemma lasting_error_not_notified_again_witness :
  ∃ response2 w2',
    lambda_handler StubDriver.splitext Fixtures.config Fixtures.event false
                   Fixtures.world_again = (inr response2, w2')
    ∧ ¬ published "New scrape errors" Fixtures.world_again w2'.
Proof.
  assert (handler_scrape Fixtures.config Fixtures.event Fixtures.world
          = (inr (Fixtures.world_new_jobs, Fixtures.world_seen, [],
                  [("Ghost", Fixtures.ghost_error)]),
             Fixtures.world_scraped)) as Hscrape by (vm_compute; reflexivity).
  assert (lambda_handler StubDriver.splitext Fixtures.config Fixtures.event false
                         Fixtures.world
          = (inr Fixtures.world_response, Fixtures.world_after)) as Hrun
    by (vm_compute; reflexivity).
  assert (handler_scrape Fixtures.config Fixtures.event Fixtures.world_again
          = (inr ([], Fixtures.world_seen, [], [("Ghost", Fixtures.ghost_error)]),
             Fixtures.world_again_scraped)) as Hscrape2 by (vm_compute; reflexivity).
  assert (s3 Fixtures.world !! ("job-scrape", "errors.json") = Some (ErrorsDoc []))
    as Hold by (vm_compute; reflexivity).
  destruct (lasting_error_not_notified_again StubDriver.splitext
              Fixtures.config Fixtures.config Fixtures.event false
              _ _ Fixtures.world_again _ _ _ _ _ _ _ _ _ _ _ _
              Hscrape Hold (λ Heq, ltac:(discriminate Heq)) Hrun eq_refl Hscrape2
              (λ Heq, ltac:(discriminate Heq)))
    as (response2 & w2' & Hrun2 & Hquiet & _).
  { intros name e Hin. exists e. exact Hin. }
  by exists response2, w2'.
Defined.

Lemma posting_announced_once_witness :
  ∃ response w',
    lambda_handler StubDriver.splitext Fixtures.config Fixtures.event false Fixtures.world
    = (inr response, w').
Proof.
  assert (get_relevant_jobs Fixtures.config None None Fixtures.web
          = (inr Fixtures.config_scraped, Fixtures.acme_done)) as Hscrape
    by (vm_compute; reflexivity).
  destruct (posting_announced_once StubDriver.splitext Fixtures.config Fixtures.config
              Fixtures.event false Fixtures.world ∅ [] Fixtures.config_scraped
              Fixtures.acme_done eq_refl eq_refl) as (response & w' & Hrun & _).
  - by eexists.
  - by eexists.
  - reflexivity.
  - reflexivity.
  - exact Hscrape.
  - by exists response, w'.
Defined.

Lemma script_writes_seen_ids_witness :
  ∃ m', jobscrape_main StubDriver.splitext Fixtures.acme_only Fixtures.args Fixtures.machine
        = (inr (), m').
Proof.
  assert (get_relevant_jobs Fixtures.acme_only None None Fixtures.web
          = (inr Fixtures.acme_scraped, Fixtures.acme_done)) as Hscrape by reflexivity.
  destruct (script_writes_seen_ids StubDriver.splitext Fixtures.acme_only Fixtures.args
              Fixtures.machine ∅ Fixtures.acme_scraped Fixtures.acme_done eq_refl Hscrape)
    as (new & existing' & m' & _ & Hrun & _).
  by exists m'.
Defined.

Lemma script_missing_file_witness :
  jobscrape_main StubDriver.splitext Fixtures.acme_only Fixtures.args Fixtures.bare_machine
  = (inl (PyExc "FileNotFoundError" "No such file or directory"), Fixtures.bare_machine).
Proof.
  apply (script_missing_file StubDriver.splitext). reflexivity.
Defined.

Lemma script_dont_replace_keeps_file_witness :
  ∃ m',
    jobscrape_main StubDriver.splitext Fixtures.acme_only Fixtures.snapshot_args
                   Fixtures.machine = (inr (), m')
    ∧ m_files m' !! "existing_jobs.json" = Some (JobsDoc ∅).
Proof.
  assert (get_relevant_jobs Fixtures.acme_only None None Fixtures.web
          = (inr Fixtures.acme_scraped, Fixtures.acme_done)) as Hscrape by reflexivity.
  assert (∀ p path extension,
            StubDriver.splitext p = (path, extension) → path +:+ extension = p) as Hsplit.
  { intros p path extension [= <- <-]. apply string_app_nil_r. }
  assert (args_dont_replace_existing Fixtures.snapshot_args = true) as Hflag by reflexivity.
  assert (m_files Fixtures.machine !! args_existing_jobs_json Fixtures.snapshot_args
          = Some (JobsDoc ∅)) as Hfile by reflexivity.
  apply (script_dont_replace_keeps_file StubDriver.splitext Fixtures.acme_only
           Fixtures.snapshot_args Fixtures.machine ∅ Fixtures.acme_scraped
           Fixtures.acme_done Hsplit Hflag Hfile Hscrape).
Defined.

Lemma script_second_run_writes_nothing_witness :
  ∃ m', jobscrape_main StubDriver.splitext Fixtures.acme_only Fixtures.args Fixtures.machine
        = (inr (), m').
Proof.
  assert (get_relevant_jobs Fixtures.acme_only None None Fixtures.web
          = (inr Fixtures.acme_scraped, Fixtures.acme_done)) as Hscrape by reflexivity.
  destruct (script_second_run_writes_nothing StubDriver.splitext Fixtures.acme_only
              Fixtures.acme_only Fixtures.args Fixtures.machine ∅ Fixtures.acme_scraped
              Fixtures.acme_done eq_refl eq_refl eq_refl Hscrape) as (m' & Hrun & _).
  by exists m'.
Defined.
